(** * Onset post-processing of the GuitarAccuracy scripts

    A shallow embedding of [AubioOnset.py] and
    [scripts/librosa_onset_detection.py].

    Numbers.  Python [int]s are [Z].  A Python [float] is the rational [Q] it
    denotes, and float arithmetic is exact arithmetic followed by the
    rounding [rnd] of a [Rounding].  The laws of that class are laws of IEEE
    binary64 rounding to nearest; every general statement holds for every
    rounding that obeys them, and [binary64], which is that rounding, is
    the instance the concrete statements are evaluated with.  A result too
    large for a double is a value above [double_max]; such a value is only
    ever compared, except in the true division of two [int]s, where Python
    raises [OverflowError].
    Comparisons are exact.  A literal ([0.1], [15.0], [0.2], [0.3]) is read
    as the decimal it is written as: between such a decimal and its double
    there is no double, so a comparison of a double with either gives the
    same answer.  Lists are compared with Leibniz equality: the filters never
    rebuild an element, they only keep or drop it.

    Exceptions.  Code that can raise returns a [result]; [try]/[except
    Exception] is [try_except].  The spectral routines of librosa and
    numpy are not reimplemented: they are the fields of a [World] record and
    every statement is quantified over all of them. *)

From Stdlib Require Import QArith Qabs Qround Qpower ZArith List Bool String.
From Stdlib Require Import Sorted Lia Lqa.
Import ListNotations.
Open Scope Q_scope.

(** ** Python values shared by both scripts *)

(** A raised [Exception]: its class name and [str(e)]. *)
Inductive exn : Type :=
| Exn (cls : string) (msg : string).

Definition exn_str (e : exn) : string :=
  match e with Exn _ msg => msg end.

Inductive result (A : Type) : Type :=
| Ok (a : A)
| Raise (e : exn).
Arguments Ok {A} a.
Arguments Raise {A} e.

Definition bind {A B : Type} (r : result A) (k : A -> result B) : result B :=
  match r with
  | Ok a => k a
  | Raise e => Raise e
  end.

Notation "x <- e ;; k" := (bind e (fun x => k))
  (at level 61, e at next level, right associativity).
Notation "' p <- e ;; k" := (bind e (fun p => k))
  (at level 61, p pattern, e at next level, right associativity).

(** [a < b] on floats. *)
Definition Qltb (a b : Q) : bool := negb (Qle_bool b a).

(** ** Float arithmetic *)

(** The smallest positive normal double, the largest double and the unit
    roundoff 2^-53 of binary64. *)
Definition double_min : Q := 1 # (2 ^ 1022).
Definition double_max : Q := inject_Z (2 ^ 1024 - 2 ^ 971).
Definition unit_roundoff : Q := 1 # 9007199254740992.

(** Rounding to the nearest double.  It is monotone, leaves a double as it
    is, is exact on the integers up to 2^53 and on the two bounds of the
    normal range, and inside that range its relative error is at most the
    unit roundoff. *)
Class Rounding : Type := {
  rnd : Q -> Q;
  rnd_mono : forall x y, x <= y -> rnd x <= rnd y;
  rnd_idem : forall x, rnd (rnd x) == rnd x;
  rnd_int : forall n : Z, (Z.abs n <= 2 ^ 53)%Z -> rnd (inject_Z n) == inject_Z n;
  rnd_min : rnd double_min == double_min;
  rnd_max : rnd double_max == double_max;
  rnd_error : forall x, double_min <= Qabs x -> Qabs x <= double_max ->
                        Qabs (rnd x - x) <= unit_roundoff * Qabs x
}.

(** The slack rounding leaves on a gap: [(1 - u) / (1 + u)] for the unit
    roundoff [u]. *)
Definition slack : Q := 9007199254740991 # 9007199254740993.

(** *** Rounding to binary64

    Round to nearest, ties to even, with 53 bits of precision, subnormals
    below 2^-1022 and no upper clamp: a value above [double_max] stands for
    an infinity. *)

(** [2^k] for any integer [k]. *)
Definition pow2 (k : Z) : Q := 2 ^ k.

(** The nearest integer, the even one at a tie. *)
Definition round_even (x : Q) : Z :=
  let f := Qfloor x in
  match Qcompare (x - inject_Z f) (1 # 2) with
  | Lt => f
  | Gt => (f + 1)%Z
  | Eq => if Z.even f then f else (f + 1)%Z
  end.

(** [floor (log2 x)] for a positive [x]. *)
Definition ilog2 (x : Q) : Z :=
  let e := (Z.log2 (Qnum x) - Z.log2 (Zpos (Qden x)))%Z in
  if Qle_bool (pow2 e) x then e else (e - 1)%Z.

(** The exponent of the last place of the doubles around a positive [x]. *)
Definition quantum (x : Q) : Z := (Z.max (ilog2 x) (-1022) - 52)%Z.

(** The nearest multiple of [2^c]. *)
Definition on_grid (c : Z) (x : Q) : Q :=
  inject_Z (round_even (x / pow2 c)) * pow2 c.

Definition round_pos (x : Q) : Q := on_grid (quantum x) x.

Definition round64 (x : Q) : Q :=
  match Qcompare x 0 with
  | Eq => 0
  | Gt => round_pos x
  | Lt => - round_pos (- x)
  end.

(** ** AubioOnset.py *)

Module AubioOnset.

Record DetectionConfig : Type := mkConfig {
  onset_method : string;
  threshold : Q;
  win_s : Z;
  hop_s : Z
}.

(** Lines 24-26: [win_s = 512], [hop_s = win_s // 2]. *)
Definition WIN_S : Z := 512.
Definition HOP_S : Z := (WIN_S / 2)%Z.

(** Lines 34-45: the method and threshold chosen from [expected_notes]. *)
Definition select_config (expected_notes : Z) : DetectionConfig :=
  if (expected_notes <=? 8)%Z then
    mkConfig "hfc" (3 # 10) WIN_S HOP_S
  else if (expected_notes <=? 16)%Z then
    mkConfig "default" (5 # 10) WIN_S HOP_S
  else
    mkConfig "energy" (7 # 10) WIN_S HOP_S.

(** Line 75: [min_wait_frames * hop_s / samplerate].  The product of the two
    [int]s is exact; their true division gives the nearest double, or raises
    when that is out of range. *)
Definition min_wait_seconds {R : Rounding} (min_wait_frames samplerate : Z)
  : result Q :=
  if (samplerate =? 0)%Z then
    Raise (Exn "ZeroDivisionError" "division by zero")
  else
    let q := rnd (inject_Z (min_wait_frames * HOP_S) / inject_Z samplerate) in
    if Qltb double_max (Qabs q) then
      Raise (Exn "OverflowError" "integer division result too large for a float")
    else
      Ok q.

(** Lines 79-82: one iteration of the loop over [onsets]; the state is
    [(filtered_onsets, last_onset)]. *)
Definition refractory_step {R : Rounding} (g : Q) (st : list Q * Q)
    (onset_time : Q) : list Q * Q :=
  let '(filtered_onsets, last_onset) := st in
  if Qle_bool g (rnd (onset_time - last_onset)) then
    (filtered_onsets ++ [onset_time], onset_time)
  else
    (filtered_onsets, last_onset).

(** Lines 76-84, with [g = min_wait_seconds]. *)
Definition refractory {R : Rounding} (g : Q) (onsets : list Q) : list Q :=
  fst (fold_left (refractory_step g) onsets ([], - g)).

(** Lines 73-84: the refractory period is applied only when
    [min_wait_frames > 0]. *)
Definition refractory_stage {R : Rounding} (samplerate min_wait_frames : Z)
    (onsets : list Q) : result (list Q) :=
  if (0 <? min_wait_frames)%Z then
    g <- min_wait_seconds min_wait_frames samplerate ;;
    Ok (refractory g onsets)
  else
    Ok onsets.

Definition min_onset_time : Q := 1 # 10.
Definition max_recording_time : Q := 15 # 1.

(** Line 89. *)
Definition leading_edge (onsets : list Q) : list Q :=
  filter (fun onset => Qle_bool min_onset_time onset) onsets.

(** Line 98. *)
Definition trailing_edge (onsets : list Q) : list Q :=
  filter (fun onset => Qle_bool onset max_recording_time) onsets.

(** Lines 86-101 (the two [print] diagnostics do not touch [onsets]). *)
Definition edge_suppression (onsets : list Q) : list Q :=
  trailing_edge (leading_edge onsets).

(** The window [0.1 <= t <= 15.0] that the two comprehensions of lines 89 and
    98 leave together. *)
Definition in_window (t : Q) : bool :=
  Qle_bool min_onset_time t && Qle_bool t max_recording_time.

(** Lines 73-103: what [detect_onsets_aubio] does to the raw onset list
    collected by the acquisition loop. *)
Definition filter_chain {R : Rounding} (samplerate min_wait_frames : Z)
    (onsets : list Q) : result (list Q) :=
  onsets1 <- refractory_stage samplerate min_wait_frames onsets ;;
  Ok (edge_suppression onsets1).

(** The refractory rule in the words of the specification: scan in order,
    keep an onset when [time - last_kept_time >= g], the difference being
    the float one, move [last_kept_time] only on keep ... *)
Fixpoint scan_from {R : Rounding} (g last_kept_time : Q) (l : list Q) : list Q :=
  match l with
  | [] => []
  | time :: rest =>
      if Qle_bool g (rnd (time - last_kept_time))
      then time :: scan_from g time rest
      else scan_from g last_kept_time rest
  end.


End AubioOnset.

(** ** scripts/librosa_onset_detection.py *)

Module LibrosaOnset.

(** A sequence of times is either a numpy array (what librosa returns) or a
    plain Python list (what a list comprehension or [append] builds).  Only
    the array has a [tolist] method. *)
Inductive pyseq : Type :=
| NdArray (elems : list Q)
| PyList (elems : list Q).

Definition items (s : pyseq) : list Q :=
  match s with
  | NdArray l => l
  | PyList l => l
  end.

Definition len (s : pyseq) : Z := Z.of_nat (List.length (items s)).

Definition no_tolist : exn :=
  Exn "AttributeError" "'list' object has no attribute 'tolist'".

(** [s.tolist()]. *)
Definition tolist (s : pyseq) : result pyseq :=
  match s with
  | NdArray l => Ok (PyList l)
  | PyList _ => Raise no_tolist
  end.

(** The external collaborators.  Each may raise.  The keyword arguments
    that are the same at every call site ([hop_length=512], [fmax=8000],
    [units='time'], [pre_max], ...) are part of the routine; the ones that
    differ between call sites are arguments. *)
Record World : Type := mkWorld {
  (** [Path(p).exists()] *)
  path_exists : string -> bool;
  (** [open(p, 'w')] *)
  open_for_write : string -> result unit;
  (** [librosa.load(audio_file, sr=None)]: samples and sample rate *)
  load : string -> result (list Q * Z);
  (** [10 ** (min_db / 20)], given the quotient: the routine rounds it to
      a double and takes the float power *)
  pow10 : Q -> result Q;
  (** [librosa.onset.onset_strength(y=, sr=, ...)] *)
  onset_strength : list Q -> Z -> result (list Q);
  (** [librosa.onset.onset_detect(onset_envelope=, sr=, delta=, wait=, ...)] *)
  onset_detect : list Q -> Z -> Q -> Z -> result (list Q);
  (** [librosa.beat.beat_track(onset_envelope=, sr=, tightness=, ...)] *)
  beat_track : list Q -> Z -> Z -> result (Q * list Q);
  (** [librosa.frames_to_time(frames, sr=, hop_length=512)] *)
  frames_to_time : list Q -> Z -> result (list Q)
}.

(** [int(x)] on a float: truncation towards zero. *)
Definition py_int (x : Q) : Z := Z.quot (Qnum x) (Zpos (Qden x)).

(** A slice bound is counted from the end when negative and clipped to the
    length. *)
Definition slice_bound (n i : Z) : Z :=
  if (i <? 0)%Z then Z.max (i + n) 0 else Z.min i n.

(** [y[start:stop]]. *)
Definition py_slice (y : list Q) (start stop : Z) : list Q :=
  let n := Z.of_nat (List.length y) in
  let a := slice_bound n start in
  let b := slice_bound n stop in
  firstn (Z.to_nat (b - a)) (skipn (Z.to_nat a) y).

Definition Qmaxb (a b : Q) : Q := if Qle_bool a b then b else a.

(** [np.max(a)]: raises on an empty array. *)
Definition np_max (a : list Q) : result Q :=
  match a with
  | [] => Raise (Exn "ValueError"
            "zero-size array to reduction operation maximum which has no identity")
  | x :: xs => Ok (fold_left Qmaxb xs x)
  end.

(** [[t for t in l if p(t)]] where [p] may raise. *)
Fixpoint comprehension (p : Q -> result bool) (l : list Q) : result (list Q) :=
  match l with
  | [] => Ok []
  | t :: rest =>
      b <- p t ;;
      rest' <- comprehension p rest ;;
      Ok (if b then t :: rest' else rest')
  end.

(** [np.max(np.abs(y[int(t*sr):int(t*sr)+1024])) > min_linear]; [t*sr] is a
    float product. *)
Definition loud_enough {R : Rounding} (y : list Q) (sr : Z) (min_linear : Q)
    (t : Q) : result bool :=
  let i := py_int (rnd (t * inject_Z sr)) in
  m <- np_max (map Qabs (py_slice y i (i + 1024))) ;;
  Ok (Qltb min_linear m).

(** Lines 76, 106 and 151: the result is a Python list. *)
Definition energy_filter {R : Rounding} (y : list Q) (sr : Z) (min_linear : Q)
    (times : pyseq) : result pyseq :=
  kept <- comprehension (loud_enough y sr min_linear) (items times) ;;
  Ok (PyList kept).

(** Lines 46-78. *)
Definition detect_onsets_only {R : Rounding} (w : World) (y : list Q) (sr : Z)
    (min_linear : Q) : result pyseq :=
  onset_env <- onset_strength w y sr ;;
  onset_frames <- onset_detect w onset_env sr (2 # 10) 10 ;;
  onset_times <- frames_to_time w onset_frames sr ;;
  onset_times <- energy_filter y sr min_linear (NdArray onset_times) ;;
  tolist onset_times.

(** Lines 80-108. *)
Definition detect_beats_only {R : Rounding} (w : World) (y : list Q) (sr : Z)
    (min_linear : Q) : result pyseq :=
  onset_env <- onset_strength w y sr ;;
  '(tempo, beat_frames) <- beat_track w onset_env sr 100 ;;
  beat_times <- frames_to_time w beat_frames sr ;;
  beat_times <- energy_filter y sr min_linear (NdArray beat_times) ;;
  tolist beat_times.

(** [min(l, key=key)]: the first element whose key is smallest. *)
Definition py_min_key (key : Q -> Q) (l : list Q) : result Q :=
  match l with
  | [] => Raise (Exn "ValueError" "min() arg is an empty sequence")
  | x :: xs =>
      Ok (fold_left (fun best x' => if Qltb (key x') (key best) then x' else best)
            xs x)
  end.

(** A [for] loop whose body may raise, threading the loop state. *)
Fixpoint for_each {S : Type} (body : S -> Q -> result S) (l : list Q) (s : S)
  : result S :=
  match l with
  | [] => Ok s
  | x :: rest => s' <- body s x ;; for_each body rest s'
  end.

Definition beat_threshold : Q := 2 # 10.

(** Lines 160-163: the body of the loop over [onset_times]; both differences
    are float differences. *)
Definition proximity_body {R : Rounding} (beat_times : pyseq)
    (filtered_onsets : list Q) (onset : Q) : result (list Q) :=
  closest_beat <-
    py_min_key (fun x => Qabs (rnd (x - onset))) (items beat_times) ;;
  Ok (if Qltb (Qabs (rnd (closest_beat - onset))) beat_threshold
      then filtered_onsets ++ [onset]
      else filtered_onsets).

(** Lines 153-171.  Line 166 compares an integer count with the float
    product [len(onset_times) * 0.3]; for any list that fits in memory that
    product lies on the same side of every integer as the exact three
    tenths, which is what is compared here. *)
Definition beat_proximity {R : Rounding} (onset_times beat_times : pyseq)
  : result pyseq :=
  if (0 <? len beat_times)%Z then
    filtered_onsets <-
      for_each (proximity_body beat_times) (items onset_times) [] ;;
    if Qltb (inject_Z (Z.of_nat (List.length filtered_onsets)))
            (inject_Z (len onset_times) * (3 # 10))
    then tolist onset_times
    else Ok (PyList filtered_onsets)
  else
    tolist onset_times.

(** Lines 110-171. *)
Definition detect_combined {R : Rounding} (w : World) (y : list Q) (sr : Z)
    (min_linear : Q) : result pyseq :=
  onset_env <- onset_strength w y sr ;;
  onset_frames <- onset_detect w onset_env sr (15 # 100) 8 ;;
  '(tempo, beat_frames) <- beat_track w onset_env sr 80 ;;
  onset_times <- frames_to_time w onset_frames sr ;;
  beat_times <- frames_to_time w beat_frames sr ;;
  onset_times <- energy_filter y sr min_linear (NdArray onset_times) ;;
  beat_proximity onset_times (NdArray beat_times).

(** A JSON document. *)
#[warnings="-register-all"] Inductive json : Type :=
| JFloat (q : Q)
| JInt (z : Z)
| JString (s : string)
| JArray (l : list json)
| JObject (members : list (string * json)).

(** What a run does to the outside, in order. *)
Inductive event : Type :=
| Ev_load (path : string)
| Ev_stderr (line : string)
| Ev_stdout (doc : json)
| Ev_file (path : string) (doc : json).

(** A computation that leaves a trace and returns or raises. *)
Definition io (A : Type) : Type := (list event * result A)%type.

Definition io_ret {A : Type} (a : A) : io A := ([], Ok a).

Definition io_bind {A B : Type} (m : io A) (k : A -> io B) : io B :=
  match m with
  | (tr, Ok a) => let '(tr', r) := k a in (tr ++ tr', r)
  | (tr, Raise e) => (tr, Raise e)
  end.

Definition lift {A : Type} (r : result A) : io A := ([], r).

Definition emit (ev : event) : io unit := ([ev], Ok tt).

(** [try: body  except Exception as e: handler(e)]. *)
Definition try_except {A : Type} (body : io A) (handler : exn -> io A) : io A :=
  match body with
  | (tr, Ok a) => (tr, Ok a)
  | (tr, Raise e) => let '(tr', r) := handler e in (tr ++ tr', r)
  end.

Notation "x <~ e ;; k" := (io_bind e (fun x => k))
  (at level 61, e at next level, right associativity).
Notation "' p <~ e ;; k" := (io_bind e (fun p => k))
  (at level 61, p pattern, e at next level, right associativity).

(** Lines 27-40: the body of the [try]. *)
Definition detect_body {R : Rounding} (w : World) (audio_file : string)
    (min_db : Q) (method : string) : io pyseq :=
  _ <~ emit (Ev_load audio_file) ;;
  '(y, sr) <~ lift (load w audio_file) ;;
  min_linear <~ lift (pow10 w (min_db / 20)) ;;
  if String.eqb method "onset" then
    lift (detect_onsets_only w y sr min_linear)
  else if String.eqb method "beat" then
    lift (detect_beats_only w y sr min_linear)
  else if String.eqb method "combined" then
    lift (detect_combined w y sr min_linear)
  else
    lift (Raise (Exn "ValueError" ("Unknown method: " ++ method))).

(** Lines 14-44. *)
Definition detect_onsets_librosa {R : Rounding} (w : World)
    (audio_file : string) (min_db : Q) (method : string) : io pyseq :=
  try_except
    (detect_body w audio_file min_db method)
    (fun e =>
       _ <~ emit (Ev_stderr
               ("Error processing " ++ audio_file ++ ": " ++ exn_str e)) ;;
       io_ret (PyList [])).

(** The parsed command line. *)
Record Args : Type := mkArgs {
  audio_file : string;
  min_db : Q;
  method : string;
  output : option string
}.

(** The values stored in the [result] dictionary. *)
Inductive pyval : Type :=
| VSeq (s : pyseq)
| VStr (s : string)
| VFloat (q : Q)
| VInt (z : Z).

(** The [json] encoder: an array is not serializable. *)
Definition encode (v : pyval) : result json :=
  match v with
  | VSeq (PyList l) => Ok (JArray (map JFloat l))
  | VSeq (NdArray _) =>
      Raise (Exn "TypeError" "Object of type ndarray is not JSON serializable")
  | VStr s => Ok (JString s)
  | VFloat q => Ok (JFloat q)
  | VInt z => Ok (JInt z)
  end.

Fixpoint encode_members (d : list (string * pyval))
  : result (list (string * json)) :=
  match d with
  | [] => Ok []
  | (k, v) :: rest =>
      j <- encode v ;;
      rest' <- encode_members rest ;;
      Ok ((k, j) :: rest')
  end.

(** [json.dumps(d)] / [json.dump(d, f)] as a document. *)
Definition json_dump (d : list (string * pyval)) : result json :=
  members <- encode_members d ;;
  Ok (JObject members).

(** [if args.output:] is false for [None] and for the empty string. *)
Definition output_path (a : Args) : option string :=
  match output a with
  | Some p => if String.eqb p "" then None else Some p
  | None => None
  end.

Inductive outcome : Type :=
| Finished
| Exited (code : Z)
| Uncaught (e : exn).

(** Lines 192-197. *)
Definition result_dict (a : Args) (onset_times : pyseq)
  : list (string * pyval) :=
  [ ("onset_times"%string, VSeq onset_times);
    ("method"%string, VStr (method a));
    ("min_db"%string, VFloat (min_db a));
    ("count"%string, VInt (len onset_times)) ].

(** Lines 199-204. *)
Definition write_result (w : World) (a : Args) (d : list (string * pyval))
  : io unit :=
  match output_path a with
  | Some p =>
      _ <~ lift (open_for_write w p) ;;
      doc <~ lift (json_dump d) ;;
      emit (Ev_file p doc)
  | None =>
      doc <~ lift (json_dump d) ;;
      emit (Ev_stdout doc)
  end.

(** Lines 183-204: [main] after [parse_args]. *)
Definition main {R : Rounding} (w : World) (a : Args) : list event * outcome :=
  if negb (path_exists w (audio_file a)) then
    ([Ev_stderr ("Error: File " ++ audio_file a ++ " not found")], Exited 1)
  else
    let run :=
      onset_times <~ detect_onsets_librosa w (audio_file a) (min_db a) (method a) ;;
      write_result w a (result_dict a onset_times) in
    match run with
    | (tr, Ok _) => (tr, Finished)
    | (tr, Raise e) => (tr, Uncaught e)
    end.

(** The documents a trace emitted. *)
Definition emitted (tr : list event) : list json :=
  flat_map (fun ev => match ev with
                      | Ev_stdout d => [d]
                      | Ev_file _ d => [d]
                      | _ => []
                      end) tr.

Definition stderr_of (tr : list event) : list string :=
  flat_map (fun ev => match ev with Ev_stderr s => [s] | _ => [] end) tr.

Definition loads_of (tr : list event) : list string :=
  flat_map (fun ev => match ev with Ev_load p => [p] | _ => [] end) tr.

Definition keys (doc : json) : list string :=
  match doc with
  | JObject members => map fst members
  | _ => []
  end.

Fixpoint assoc (k : string) (members : list (string * json)) : option json :=
  match members with
  | [] => None
  | (k', v) :: rest => if String.eqb k k' then Some v else assoc k rest
  end.

Definition member (k : string) (doc : json) : option json :=
  match doc with
  | JObject members => assoc k members
  | _ => None
  end.

End LibrosaOnset.

(** ** Order-preserving deletion *)

Inductive subseq {A : Type} : list A -> list A -> Prop :=
| subseq_nil : subseq [] []
| subseq_keep x l1 l2 : subseq l1 l2 -> subseq (x :: l1) (x :: l2)
| subseq_drop x l1 l2 : subseq l1 l2 -> subseq l1 (x :: l2).

(** Every pair of neighbours [a, b] has [b - a >= g], the difference being
    the float one, as the code takes it. *)
Definition gap_ge {R : Rounding} (g a b : Q) : Prop := g <= rnd (b - a).
Definition separated {R : Rounding} (g : Q) (l : list Q) : Prop :=
  Sorted (gap_ge g) l.

(** The quotient [min_wait_frames * hop_s / samplerate] of line 75, before
    it is rounded. *)
Definition gap_quotient (samplerate min_wait_frames : Z) : Q :=
  inject_Z (min_wait_frames * 256) / inject_Z samplerate.

(** The same with the exact difference. *)
Definition apart (c a b : Q) : Prop := c <= b - a.

(** What the scan over the refractory output knows when it is at [last] and
    the last onset that survived edge suppression is [a]: either the lower
    bound of the window, and so every time in the window, passes the test
    after [a]; or [a] is below the upper bound and nothing but times above
    it came since. *)
Definition rescan_inv {R : Rounding} (g last a : Q) : Prop :=
  g <= rnd ((1 # 10) - a) \/ (a <= 15 # 1 /\ (last = a \/ 15 # 1 < last)).

(** The beat-proximity test of lines 161-162 as a predicate on one onset;
    with no beat there is nothing to be near. *)
Definition keeps {R : Rounding} (beats : list Q) (onset : Q) : bool :=
  match LibrosaOnset.py_min_key (fun x => Qabs (rnd (x - onset))) beats with
  | Ok closest_beat =>
      Qltb (Qabs (rnd (closest_beat - onset))) LibrosaOnset.beat_threshold
  | Raise _ => false
  end.

(** The same in the words of the specification: a nearest beat, by absolute
    difference, lies less than 0.2 s away; the differences are the float
    ones. *)
Definition near_a_beat {R : Rounding} (beats : list Q) (onset : Q) : Prop :=
  exists nearest,
    In nearest beats
    /\ (forall b, In b beats ->
          Qabs (rnd (nearest - onset)) <= Qabs (rnd (b - onset)))
    /\ Qabs (rnd (nearest - onset)) < 2 # 10.

(** The document of the specification's schema
    [{onset_times, method, min_db, count}] for the onset list [l]. *)
Definition document (a : LibrosaOnset.Args) (l : list Q) : LibrosaOnset.json :=
  LibrosaOnset.JObject
    [ ("onset_times"%string, LibrosaOnset.JArray (map LibrosaOnset.JFloat l));
      ("method"%string, LibrosaOnset.JString (LibrosaOnset.method a));
      ("min_db"%string, LibrosaOnset.JFloat (LibrosaOnset.min_db a));
      ("count"%string, LibrosaOnset.JInt (Z.of_nat (List.length l))) ].

(** ** Two concrete worlds *)

(** A three-thousand-sample clip at 512 Hz, five detected onsets at 1..5 s,
    one beat at 100 s, and a dB conversion that yields 0.001. *)
Definition example_frames_to_time (frames : list Q) (sr : Z) : result (list Q) :=
  Ok (map (fun f => Qred (f * 512 / inject_Z sr)) frames).

Definition example_world : LibrosaOnset.World :=
  LibrosaOnset.mkWorld
    (fun _ => true)
    (fun _ => Ok tt)
    (fun _ => Ok (repeat (1 # 2) 3000, 512%Z))
    (fun _ => Ok (1 # 1000))
    (fun _ _ => Ok [])
    (fun _ _ _ _ => Ok [1; 2; 3; 4; 5])
    (fun _ _ _ => Ok (120, [100]))
    example_frames_to_time.

(** The same, except that the beats fall next to the onsets 1, 2 and 5. *)
Definition steady_world : LibrosaOnset.World :=
  LibrosaOnset.mkWorld
    (fun _ => true)
    (fun _ => Ok tt)
    (fun _ => Ok (repeat (1 # 2) 3000, 512%Z))
    (fun _ => Ok (1 # 1000))
    (fun _ _ => Ok [])
    (fun _ _ _ _ => Ok [1; 2; 3; 4; 5])
    (fun _ _ _ => Ok (120, [11 # 10; 21 # 10; 51 # 10]))
    example_frames_to_time.

(** A file that exists and cannot be decoded. *)
Definition undecodable_world : LibrosaOnset.World :=
  LibrosaOnset.mkWorld
    (fun _ => true)
    (fun _ => Ok tt)
    (fun _ => Raise (Exn "NoBackendError" "format not recognised"))
    (fun _ => Ok (1 # 1000))
    (fun _ _ => Ok [])
    (fun _ _ _ _ => Ok [])
    (fun _ _ _ => Ok (120, []))
    example_frames_to_time.

(** ** AubioOnset.py: acquisition, the whole function and the beat map *)

Module AubioRun.

(** The aubio objects and the number formatting.  [source(filename, 0,
    hop_s)] gives the sample rate and the stream of blocks: the [k]-th call
    [s()] returns the samples and the number of frames read.  The detector
    built by [onset(method, win_s, hop_s, samplerate)] and
    [set_threshold(threshold)] keeps state between calls, so it is a function
    of all the blocks fed so far (newest last): [None] when [o(samples)] is
    falsy, [Some t] with [t = o.get_last_s()] otherwise. *)
Record World : Type := mkWorld {
  (** ['%.4f' % t] *)
  format_4f : Q -> string;
  source : string -> Z -> result (Z * (nat -> result (list Q * Z)));
  onset : string -> Z -> Z -> Z -> Q
          -> result (list (list Q) -> result (option Q))
}.

(** Lines 63-71.  [k] counts the calls of [s()], [fed] is what the detector
    has seen, [fuel] bounds the iterations: [None] means the loop is still
    running when the fuel is spent. *)
Fixpoint acquire (fuel : nat) (s : nat -> result (list Q * Z))
    (o : list (list Q) -> result (option Q)) (k : nat)
    (fed : list (list Q)) (onsets : list Q) (total_frames : Z)
  : option (result (list Q * Z)) :=
  match fuel with
  | O => None
  | S fuel' =>
      match s k with
      | Raise e => Some (Raise e)
      | Ok (samples, read) =>
          match o (fed ++ [samples]) with
          | Raise e => Some (Raise e)
          | Ok detected =>
              let onsets' :=
                match detected with
                | Some onset_time => onsets ++ [onset_time]
                | None => onsets
                end in
              let total_frames' := (total_frames + read)%Z in
              if (read <? AubioOnset.HOP_S)%Z then
                Some (Ok (onsets', total_frames'))
              else
                acquire fuel' s o (S k) (fed ++ [samples]) onsets' total_frames'
          end
      end
  end.

(** Lines 11-103 (the [print] diagnostics write to standard output only). *)
Definition detect_onsets_aubio {R : Rounding} (fuel : nat) (w : World)
    (filename : string) (expected_notes min_wait_frames : Z)
  : option (result (list Q)) :=
  match source w filename AubioOnset.HOP_S with
  | Raise e => Some (Raise e)
  | Ok (samplerate, s) =>
      let c := AubioOnset.select_config expected_notes in
      match onset w (AubioOnset.onset_method c) AubioOnset.WIN_S
              AubioOnset.HOP_S samplerate (AubioOnset.threshold c) with
      | Raise e => Some (Raise e)
      | Ok o =>
          match acquire fuel s o 0 [] [] 0 with
          | None => None
          | Some (Raise e) => Some (Raise e)
          | Some (Ok (onsets, _)) =>
              Some (AubioOnset.filter_chain samplerate min_wait_frames onsets)
          end
      end
  end.

Definition newline : string := String (Ascii.ascii_of_nat 10) EmptyString.

(** Lines 129-130. *)
Definition beatmap_text (w : World) (onset_times : list Q) : string :=
  String.concat newline (map (format_4f w) onset_times).

(** The first [k] blocks of a stream that reads without error, oldest
    first. *)
Definition fed_before (blocks : nat -> list Q * Z) (k : nat) : list (list Q) :=
  map (fun j => fst (blocks j)) (seq 0 k).

(** What a detector that never fails reports while it is fed the first [k]
    blocks one by one. *)
Definition detections_before (det : list (list Q) -> option Q)
    (blocks : nat -> list Q * Z) (k : nat) : list Q :=
  flat_map (fun j => match det (fed_before blocks (S j)) with
                     | Some t => [t]
                     | None => []
                     end) (seq 0 k).

(** The frames read by the first [k] calls. *)
Definition frames_before (blocks : nat -> list Q * Z) (k : nat) : Z :=
  fold_right Z.add 0%Z (map (fun j => snd (blocks j)) (seq 0 k)).

(** Occurrences of a character in a string. *)
Fixpoint count_char (c : Ascii.ascii) (s : string) : nat :=
  match s with
  | EmptyString => O
  | String c' s' => (if Ascii.eqb c c' then 1 else 0) + count_char c s'
  end.

End AubioRun.

(** ** Helpers for the statements about the energy filter *)

(** The window [y[int(t*sr):int(t*sr)+1024]] of line 151. *)
Definition window {R : Rounding} (y : list Q) (sr : Z) (t : Q) : list Q :=
  let i := LibrosaOnset.py_int (rnd (t * inject_Z sr)) in
  LibrosaOnset.py_slice y i (i + 1024).

(** Some sample of the window is louder than the threshold. *)
Definition loud {R : Rounding} (y : list Q) (sr : Z) (min_linear : Q) (t : Q)
  : bool :=
  existsb (fun s => Qltb min_linear (Qabs s)) (window y sr t).

Definition nonempty (l : list Q) : bool :=
  match l with
  | [] => false
  | _ :: _ => true
  end.

Definition zero_size : exn :=
  Exn "ValueError"
    "zero-size array to reduction operation maximum which has no identity".

(** Two onsets and no beat. *)
Definition beatless_world : LibrosaOnset.World :=
  LibrosaOnset.mkWorld
    (fun _ => true)
    (fun _ => Ok tt)
    (fun _ => Ok (repeat (1 # 2) 3000, 512%Z))
    (fun _ => Ok (1 # 1000))
    (fun _ _ => Ok [])
    (fun _ _ _ _ => Ok [1; 2])
    (fun _ _ _ => Ok (0, []))
    example_frames_to_time.

(** ** A concrete aubio run *)

(** Two full blocks and a short one; the detector fires once, on the second
    block, at 0.5 s. *)
Definition example_blocks (k : nat) : list Q * Z :=
  (repeat 0 4, if (k <? 2)%nat then 256%Z else 100%Z).

Definition example_detector (fed : list (list Q)) : option Q :=
  if (List.length fed =? 2)%nat then Some (1 # 2) else None.

Definition example_aubio : AubioRun.World :=
  AubioRun.mkWorld
    (fun _ => "0.5000"%string)
    (fun _ _ => Ok (44100%Z, fun k => Ok (example_blocks k)))
    (fun _ _ _ _ _ => Ok (fun fed => Ok (example_detector fed))).

(** * Properties *)

(** ** Comparisons *)

Lemma Qltb_iff (a b : Q) : Qltb a b = true <-> a < b.
Proof.
  unfold Qltb. rewrite negb_true_iff. split.
  - intro H. apply Qnot_le_lt. intro Hle.
    apply Qle_bool_iff in Hle. congruence.
  - intro H. destruct (Qle_bool b a) eqn:E; [|reflexivity].
    apply Qle_bool_iff in E. lra.
Qed.

Lemma Qltb_false_iff (a b : Q) : Qltb a b = false <-> b <= a.
Proof.
  unfold Qltb. rewrite negb_false_iff. apply Qle_bool_iff.
Qed.

Lemma Qle_bool_false (a b : Q) : Qle_bool a b = false <-> b < a.
Proof.
  split.
  - intro H. apply Qnot_le_lt. intro Hle.
    apply Qle_bool_iff in Hle. congruence.
  - intro H. destruct (Qle_bool a b) eqn:E; [|reflexivity].
    apply Qle_bool_iff in E. lra.
Qed.

(** Case analysis on a float comparison, with the order fact in context. *)
Ltac case_Qle a b :=
  let E := fresh "E" in
  destruct (Qle_bool a b) eqn:E;
  [ apply Qle_bool_iff in E | apply Qle_bool_false in E ].

(** ** Binary64 rounding obeys the laws *)

Lemma pow2_pos k : 0 < pow2 k.
Proof. apply Qpower_0_lt. reflexivity. Qed.

Lemma pow2_add a b : pow2 (a + b) == pow2 a * pow2 b.
Proof. apply Qpower_plus. discriminate. Qed.

Lemma pow2_le a b : (a <= b)%Z -> pow2 a <= pow2 b.
Proof. intro H. apply Qpower_le_compat_l; [exact H | discriminate]. Qed.

Lemma pow2_lt a b : (a < b)%Z -> pow2 a < pow2 b.
Proof. intro H. apply Qpower_lt_compat_l; [exact H | reflexivity]. Qed.

Lemma pow2_lt_inv a b : pow2 a < pow2 b -> (a < b)%Z.
Proof. intro H. apply (Qpower_lt_compat_l_inv 2); [exact H | reflexivity]. Qed.

Lemma pow2_Z k : (0 <= k)%Z -> pow2 k == inject_Z (2 ^ k).
Proof. intro H. unfold pow2. rewrite Zpower_Qpower by exact H. reflexivity. Qed.

Lemma pow2_succ k : pow2 (k + 1) == 2 * pow2 k.
Proof. rewrite pow2_add. change (pow2 1) with 2. ring. Qed.

Lemma round_even_bounds x :
  (Qfloor x <= round_even x <= Qfloor x + 1)%Z.
Proof.
  unfold round_even. destruct (Qcompare (x - inject_Z (Qfloor x)) (1 # 2));
    [destruct (Z.even (Qfloor x))|..]; lia.
Qed.

Lemma round_even_Z n : round_even (inject_Z n) = n.
Proof.
  unfold round_even. rewrite Qfloor_Z.
  assert (E : inject_Z n - inject_Z n == 0) by ring.
  rewrite E. reflexivity.
Qed.

Lemma round_even_mono x y : x <= y -> (round_even x <= round_even y)%Z.
Proof.
  intro H. pose proof (Qfloor_resp_le _ _ H) as Hf.
  destruct (Z.eq_dec (Qfloor x) (Qfloor y)) as [E|NE].
  - unfold round_even. rewrite <- E.
    destruct (Qcompare_spec (x - inject_Z (Qfloor x)) (1 # 2)) as [H1|H1|H1];
    destruct (Qcompare_spec (y - inject_Z (Qfloor x)) (1 # 2)) as [H2|H2|H2];
    try destruct (Z.even (Qfloor x)); try lia; exfalso; lra.
  - pose proof (round_even_bounds x). pose proof (round_even_bounds y). lia.
Qed.

Lemma round_even_error x : Qabs (inject_Z (round_even x) - x) <= 1 # 2.
Proof.
  pose proof (Qfloor_le x) as Hlo. pose proof (Qlt_floor x) as Hhi.
  rewrite inject_Z_plus in Hhi. change (inject_Z 1) with 1 in Hhi.
  apply Qabs_Qle_condition. unfold round_even.
  destruct (Qcompare_spec (x - inject_Z (Qfloor x)) (1 # 2)) as [H1|H1|H1].
  - destruct (Z.even (Qfloor x)); [|rewrite inject_Z_plus; change (inject_Z 1) with 1]; lra.
  - lra.
  - rewrite inject_Z_plus. change (inject_Z 1) with 1. lra.
Qed.

Lemma round_even_proper x y : x == y -> round_even x = round_even y.
Proof.
  intro H. apply Z.le_antisymm; apply round_even_mono; rewrite H; apply Qle_refl.
Qed.

Lemma round_even_nonneg x : 0 <= x -> (0 <= round_even x)%Z.
Proof.
  intro H. apply round_even_mono in H. exact H.
Qed.

Lemma ilog2_spec x : 0 < x -> pow2 (ilog2 x) <= x /\ x < pow2 (ilog2 x + 1).
Proof.
  intro Hx. destruct x as [n d].
  assert (Hn : (0 < n)%Z).
  { unfold Qlt in Hx. simpl in Hx. lia. }
  unfold ilog2. cbn [Qnum Qden].
  set (a := Z.log2 n). set (b := Z.log2 (Z.pos d)).
  pose proof (Z.log2_spec n Hn) as [Ha1 Ha2]. fold a in Ha1, Ha2.
  pose proof (Z.log2_spec (Z.pos d) ltac:(lia)) as [Hb1 Hb2]. fold b in Hb1, Hb2.
  pose proof (Z.log2_nonneg n) as Ha0. fold a in Ha0.
  pose proof (Z.log2_nonneg (Z.pos d)) as Hb0. fold b in Hb0.
  rewrite Zle_Qle, <- pow2_Z in Ha1, Hb1 by lia.
  rewrite Zlt_Qlt in Ha2, Hb2.
  replace (Z.succ a) with (a + 1)%Z in Ha2 by lia.
  replace (Z.succ b) with (b + 1)%Z in Hb2 by lia.
  rewrite <- pow2_Z, pow2_succ in Ha2, Hb2 by lia.
  pose proof (pow2_pos a) as HA. pose proof (pow2_pos b) as HB.
  assert (Ee : pow2 (a - b) == pow2 a / pow2 b).
  { replace (a - b)%Z with (a + - b)%Z by lia. rewrite pow2_add.
    unfold pow2 at 2. rewrite Qpower_opp. reflexivity. }
  assert (Ex : n # d == inject_Z n / inject_Z (Z.pos d)) by apply Qmake_Qdiv.
  set (N := inject_Z n) in *. set (D := inject_Z (Z.pos d)) in *.
  set (A := pow2 a) in *. set (B := pow2 b) in *.
  assert (HD : 0 < D) by lra.
  assert (Hlow : A / B < 2 * (N / D)).
  { apply Qlt_shift_div_r; [exact HB|].
    assert (E : 2 * (N / D) * B == (2 * N * B) / D) by (field; lra).
    rewrite E. apply Qlt_shift_div_l; [exact HD|]. nra. }
  assert (Hhigh : N / D < 2 * (A / B)).
  { apply Qlt_shift_div_r; [exact HD|].
    assert (E : 2 * (A / B) * D == (2 * A * D) / B) by (field; lra).
    rewrite E. apply Qlt_shift_div_l; [exact HB|]. nra. }
  case_eq (Qle_bool (pow2 (a - b)) (n # d)); intro Hc.
  - apply Qle_bool_iff in Hc. split; [exact Hc|].
    rewrite pow2_succ, Ee, Ex. exact Hhigh.
  - assert (Hlt : n # d < pow2 (a - b)).
    { apply Qnot_le_lt. intro H. apply Qle_bool_iff in H. congruence. }
    replace (a - b - 1 + 1)%Z with (a - b)%Z by lia.
    split; [|exact Hlt].
    assert (E2 : pow2 (a - b) == 2 * pow2 (a - b - 1)).
    { rewrite <- pow2_succ. replace (a - b - 1 + 1)%Z with (a - b)%Z by lia.
      reflexivity. }
    rewrite Ee in E2. rewrite Ex. lra.
Qed.

Lemma ilog2_ge x k : 0 < x -> pow2 k <= x -> (k <= ilog2 x)%Z.
Proof.
  intros Hx Hk. destruct (ilog2_spec x Hx) as [_ Hhi].
  assert (H : pow2 k < pow2 (ilog2 x + 1)) by lra.
  apply pow2_lt_inv in H. lia.
Qed.

Lemma ilog2_lt x k : 0 < x -> x < pow2 k -> (ilog2 x < k)%Z.
Proof.
  intros Hx Hk. destruct (ilog2_spec x Hx) as [Hlo _].
  assert (H : pow2 (ilog2 x) < pow2 k) by lra.
  apply pow2_lt_inv in H. exact H.
Qed.

Lemma ilog2_mono x y : 0 < x -> x <= y -> (ilog2 x <= ilog2 y)%Z.
Proof.
  intros Hx Hxy. destruct (ilog2_spec x Hx) as [Hlo _].
  apply ilog2_ge; lra.
Qed.

Lemma quantum_mono x y : 0 < x -> x <= y -> (quantum x <= quantum y)%Z.
Proof.
  intros Hx Hxy. pose proof (ilog2_mono x y Hx Hxy). unfold quantum. lia.
Qed.

Lemma on_grid_mono c x y : x <= y -> on_grid c x <= on_grid c y.
Proof.
  intro H. unfold on_grid. pose proof (pow2_pos c) as Hc.
  apply Qmult_le_compat_r; [|lra].
  rewrite <- Zle_Qle. apply round_even_mono.
  apply Qmult_le_compat_r; [exact H|].
  apply Qlt_le_weak. apply Qinv_lt_0_compat. exact Hc.
Qed.

Lemma on_grid_fix c m x : x == inject_Z m * pow2 c -> on_grid c x == x.
Proof.
  intro H. unfold on_grid. pose proof (pow2_pos c) as Hc.
  assert (E : x / pow2 c == inject_Z m) by (rewrite H; field; lra).
  rewrite (round_even_proper _ _ E), round_even_Z. rewrite H. reflexivity.
Qed.

Lemma on_grid_error c x : Qabs (on_grid c x - x) <= (1 # 2) * pow2 c.
Proof.
  unfold on_grid. pose proof (pow2_pos c) as Hc.
  set (t := x / pow2 c).
  assert (E : inject_Z (round_even t) * pow2 c - x
              == (inject_Z (round_even t) - t) * pow2 c).
  { unfold t. field. lra. }
  rewrite E, Qabs_Qmult, (Qabs_pos (pow2 c)) by lra.
  apply Qmult_le_compat_r; [apply round_even_error | lra].
Qed.

Lemma on_grid_nonneg c x : 0 <= x -> 0 <= on_grid c x.
Proof.
  intro H. unfold on_grid. pose proof (pow2_pos c) as Hc.
  apply Qmult_le_0_compat; [|lra].
  change 0 with (inject_Z 0). rewrite <- Zle_Qle. apply round_even_nonneg.
  apply Qle_shift_div_l; [exact Hc | lra].
Qed.

Lemma pow2_split (e c : Z) :
  (c <= e)%Z -> pow2 e == inject_Z (2 ^ (e - c)) * pow2 c.
Proof.
  intro H. rewrite <- pow2_Z by lia. rewrite <- pow2_add.
  replace (e - c + c)%Z with e by lia. reflexivity.
Qed.

Lemma round_pos_mono x y : 0 < x -> x <= y -> round_pos x <= round_pos y.
Proof.
  intros Hx Hxy. unfold round_pos.
  pose proof (quantum_mono x y Hx Hxy) as Hq.
  destruct (Z.eq_dec (quantum x) (quantum y)) as [E|NE].
  - rewrite E. apply on_grid_mono. exact Hxy.
  - assert (Hy : 0 < y) by lra.
    destruct (ilog2_spec x Hx) as [_ Hxhi].
    destruct (ilog2_spec y Hy) as [Hylo _].
    pose proof (ilog2_mono x y Hx Hxy) as He.
    unfold quantum in *.
    assert (Hey : (-1022 < ilog2 y)%Z) by lia.
    assert (Hlt : (ilog2 x < ilog2 y)%Z) by lia.
    set (p := pow2 (ilog2 y)).
    assert (Hxp : x <= p).
    { apply Qle_trans with (pow2 (ilog2 x + 1)); [lra|]. apply pow2_le. lia. }
    apply Qle_trans with p.
    + rewrite <- (on_grid_fix (Z.max (ilog2 x) (-1022) - 52)
                    (2 ^ (ilog2 y - (Z.max (ilog2 x) (-1022) - 52))) p)
        by (apply pow2_split; lia).
      apply on_grid_mono. exact Hxp.
    + rewrite <- (on_grid_fix (Z.max (ilog2 y) (-1022) - 52)
                    (2 ^ (ilog2 y - (Z.max (ilog2 y) (-1022) - 52))) p)
        by (apply pow2_split; lia).
      apply on_grid_mono. exact Hylo.
Qed.

Lemma round_pos_proper x y : 0 < x -> x == y -> round_pos x == round_pos y.
Proof.
  intros Hx H. apply Qle_antisym; apply round_pos_mono; lra.
Qed.

Lemma round_pos_nonneg x : 0 <= x -> 0 <= round_pos x.
Proof. apply on_grid_nonneg. Qed.

(** A number with at most 53 significant bits above the smallest
    subnormal is a double: rounding leaves it. *)
Lemma round_pos_fix (m c : Z) :
  (1 <= m <= 2 ^ 53)%Z -> (-1074 <= c)%Z ->
  round_pos (inject_Z m * pow2 c) == inject_Z m * pow2 c.
Proof.
  intros Hm Hc. set (r := inject_Z m * pow2 c).
  pose proof (pow2_pos c) as Hpc.
  assert (Hm1 : 1 <= inject_Z m).
  { change 1 with (inject_Z 1). rewrite <- Zle_Qle. lia. }
  assert (Hr : 0 < r) by (unfold r; nra).
  unfold round_pos, quantum.
  destruct (Z.eq_dec m (2 ^ 53)) as [->|Hne].
  - assert (Er : r == pow2 (c + 53)).
    { unfold r. rewrite pow2_add, (pow2_Z 53) by lia. ring. }
    assert (E : ilog2 r = (c + 53)%Z).
    { apply Z.le_antisymm.
      - assert (H : (ilog2 r < c + 54)%Z); [|lia].
        apply ilog2_lt; [exact Hr|]. rewrite Er. apply pow2_lt. lia.
      - apply ilog2_ge; [exact Hr|]. rewrite Er. apply Qle_refl. }
    rewrite E. apply (on_grid_fix _ (2 ^ 52)).
    rewrite Er. replace (Z.max (c + 53) (-1022) - 52)%Z with (c + 1)%Z by lia.
    replace (c + 53)%Z with (52 + (c + 1))%Z by lia.
    rewrite pow2_add, (pow2_Z 52) by lia. reflexivity.
  - assert (Hlt : (ilog2 r < c + 53)%Z).
    { apply ilog2_lt; [exact Hr|].
      rewrite pow2_add, (pow2_Z 53) by lia. unfold r.
      assert (Hm2 : inject_Z m < inject_Z (2 ^ 53)) by (rewrite <- Zlt_Qlt; lia).
      rewrite (Qmult_comm (pow2 c)). apply Qmult_lt_compat_r; assumption. }
    set (c' := (Z.max (ilog2 r) (-1022) - 52)%Z).
    assert (Hc' : (c' <= c)%Z) by (unfold c'; lia).
    apply (on_grid_fix _ (m * 2 ^ (c - c'))).
    unfold r. rewrite inject_Z_mult, (pow2_split c c') by lia. ring.
Qed.

Lemma round_pos_repr x :
  0 < x ->
  round_pos x == 0
  \/ exists m c, (1 <= m <= 2 ^ 53)%Z /\ (-1074 <= c)%Z
                 /\ round_pos x = inject_Z m * pow2 c.
Proof.
  intro Hx. unfold round_pos, on_grid.
  set (c := quantum x). set (m := round_even (x / pow2 c)).
  pose proof (pow2_pos c) as Hpc.
  assert (Hm0 : (0 <= m)%Z).
  { apply round_even_nonneg. apply Qle_shift_div_l; [exact Hpc | lra]. }
  assert (Hm1 : (m <= 2 ^ 53)%Z).
  { rewrite <- (round_even_Z (2 ^ 53)). apply round_even_mono.
    apply Qle_shift_div_r; [exact Hpc|].
    rewrite <- (pow2_Z 53), <- pow2_add by lia.
    destruct (ilog2_spec x Hx) as [_ Hhi].
    apply Qle_trans with (pow2 (ilog2 x + 1)); [lra|].
    apply pow2_le. unfold c, quantum. lia. }
  destruct (Z.eq_dec m 0) as [E|NE].
  - left. rewrite E. ring.
  - right. exists m, c. repeat split; try lia. unfold c, quantum. lia.
Qed.

Lemma round64_pos x : 0 < x -> round64 x = round_pos x.
Proof.
  intro H. unfold round64. rewrite Qgt_alt in H. rewrite H. reflexivity.
Qed.

Lemma round64_neg x : x < 0 -> round64 x = - round_pos (- x).
Proof.
  intro H. unfold round64. rewrite Qlt_alt in H. rewrite H. reflexivity.
Qed.

Lemma round64_zero x : x == 0 -> round64 x = 0.
Proof.
  intro H. unfold round64. rewrite Qeq_alt in H. rewrite H. reflexivity.
Qed.

Lemma round64_mono x y : x <= y -> round64 x <= round64 y.
Proof.
  intro H.
  destruct (Q_dec x 0) as [[Hx|Hx]|Hx]; destruct (Q_dec y 0) as [[Hy|Hy]|Hy];
    try (exfalso; lra).
  - rewrite (round64_neg x Hx), (round64_neg y Hy).
    assert (Hm : round_pos (- y) <= round_pos (- x))
      by (apply round_pos_mono; lra). lra.
  - rewrite (round64_neg x Hx), (round64_pos y Hy).
    pose proof (round_pos_nonneg (- x)). pose proof (round_pos_nonneg y). lra.
  - rewrite (round64_neg x Hx), (round64_zero y Hy).
    pose proof (round_pos_nonneg (- x)). lra.
  - rewrite (round64_pos x Hx), (round64_pos y Hy).
    apply round_pos_mono; lra.
  - rewrite (round64_zero x Hx), (round64_pos y Hy).
    apply round_pos_nonneg. lra.
  - rewrite (round64_zero x Hx), (round64_zero y Hy). apply Qle_refl.
Qed.

Lemma round64_proper x y : x == y -> round64 x == round64 y.
Proof. intro H. apply Qle_antisym; apply round64_mono; lra. Qed.

Lemma round64_double (m c : Z) :
  (Z.abs m <= 2 ^ 53)%Z -> (-1074 <= c)%Z ->
  round64 (inject_Z m * pow2 c) == inject_Z m * pow2 c.
Proof.
  intros Hm Hc. pose proof (pow2_pos c) as Hpc.
  destruct (Z.lt_trichotomy m 0) as [Hneg|[->|Hpos]].
  - assert (Hm1 : inject_Z m <= -1).
    { change (-1) with (inject_Z (-1)). rewrite <- Zle_Qle. lia. }
    rewrite round64_neg by nra.
    assert (E : - (inject_Z m * pow2 c) == inject_Z (- m) * pow2 c).
    { rewrite inject_Z_opp. ring. }
    assert (Hp : 0 < - (inject_Z m * pow2 c)) by nra.
    rewrite (round_pos_proper _ _ Hp E), round_pos_fix by lia.
    rewrite inject_Z_opp. ring.
  - rewrite round64_zero; [|change (inject_Z 0) with 0]; ring.
  - assert (Hm1 : 1 <= inject_Z m).
    { change 1 with (inject_Z 1). rewrite <- Zle_Qle. lia. }
    rewrite round64_pos by nra. apply round_pos_fix; lia.
Qed.

Lemma round64_idem x : round64 (round64 x) == round64 x.
Proof.
  assert (Hpos : forall z, 0 < z -> round64 (round_pos z) == round_pos z).
  { intros z Hz. destruct (round_pos_repr z Hz) as [E|(m & c & Hm & Hc & E)].
    - rewrite (round64_zero _ E). symmetry. exact E.
    - rewrite E. apply round64_double; lia. }
  destruct (Q_dec x 0) as [[Hx|Hx]|Hx].
  - rewrite (round64_neg x Hx).
    destruct (round_pos_repr (- x) ltac:(lra)) as [E|(m & c & Hm & Hc & E)].
    + rewrite round64_zero by (rewrite E; ring). rewrite E. ring.
    + rewrite E.
      assert (E' : - (inject_Z m * pow2 c) == inject_Z (- m) * pow2 c).
      { rewrite inject_Z_opp. ring. }
      rewrite (round64_proper _ _ E'), round64_double by lia.
      rewrite inject_Z_opp. ring.
  - rewrite (round64_pos x Hx). apply Hpos. exact Hx.
  - rewrite (round64_zero x Hx). reflexivity.
Qed.

Lemma round64_int (n : Z) :
  (Z.abs n <= 2 ^ 53)%Z -> round64 (inject_Z n) == inject_Z n.
Proof.
  intro H.
  assert (E : inject_Z n == inject_Z n * pow2 0) by (change (pow2 0) with 1; ring).
  rewrite (round64_proper _ _ E), round64_double by lia.
  symmetry. exact E.
Qed.

Lemma double_min_pow2 : double_min == pow2 (-1022).
Proof. vm_compute. reflexivity. Qed.

Lemma round64_min : round64 double_min == double_min.
Proof.
  assert (E : double_min == inject_Z 1 * pow2 (-1022)).
  { rewrite double_min_pow2. change (inject_Z 1) with 1. ring. }
  rewrite (round64_proper _ _ E), round64_double by (simpl; lia).
  symmetry. exact E.
Qed.

Lemma round64_max : round64 double_max == double_max.
Proof.
  assert (E : double_max == inject_Z (2 ^ 53 - 1) * pow2 971).
  { vm_compute. reflexivity. }
  rewrite (round64_proper _ _ E), round64_double by (simpl; lia).
  symmetry. exact E.
Qed.

Lemma round_pos_error x :
  double_min <= x -> Qabs (round_pos x - x) <= unit_roundoff * x.
Proof.
  intro H. rewrite double_min_pow2 in H.
  pose proof (pow2_pos (-1022)) as Hp.
  assert (Hx : 0 < x) by lra.
  pose proof (ilog2_ge x (-1022) Hx H) as He.
  destruct (ilog2_spec x Hx) as [Hlo _].
  unfold round_pos, quantum.
  rewrite Z.max_l by lia.
  eapply Qle_trans; [apply on_grid_error|].
  rewrite (pow2_split (ilog2 x) (ilog2 x - 52)) in Hlo by lia.
  replace (ilog2 x - (ilog2 x - 52))%Z with 52%Z in Hlo by lia.
  pose proof (pow2_pos (ilog2 x - 52)) as Hq.
  set (q := pow2 (ilog2 x - 52)) in *.
  change (inject_Z (2 ^ 52)) with (4503599627370496 # 1) in Hlo.
  unfold unit_roundoff. lra.
Qed.

Lemma round64_error x :
  double_min <= Qabs x -> Qabs x <= double_max ->
  Qabs (round64 x - x) <= unit_roundoff * Qabs x.
Proof.
  intros Hlo _.
  assert (Hdm : 0 < double_min) by reflexivity.
  destruct (Q_dec x 0) as [[Hx|Hx]|Hx].
  - rewrite (Qabs_neg x) in * by lra.
    rewrite (round64_neg x Hx).
    assert (E : - round_pos (- x) - x == - (round_pos (- x) - - x)) by ring.
    rewrite E, Qabs_opp. apply round_pos_error. exact Hlo.
  - rewrite (Qabs_pos x) in * by lra.
    rewrite (round64_pos x Hx). apply round_pos_error. exact Hlo.
  - rewrite Hx in Hlo. change (Qabs 0) with 0 in Hlo. lra.
Qed.

(** The doubles of the machine. *)
Definition binary64 : Rounding :=
  {| rnd := round64;
     rnd_mono := round64_mono;
     rnd_idem := round64_idem;
     rnd_int := round64_int;
     rnd_min := round64_min;
     rnd_max := round64_max;
     rnd_error := round64_error |}.

(** The concrete statements below are evaluated with it. *)
#[global] Existing Instance binary64.

(** ** Subsequences *)

Lemma subseq_refl {A : Type} (l : list A) : subseq l l.
Proof. induction l; constructor; assumption. Qed.

Lemma subseq_trans {A : Type} (l1 l2 l3 : list A) :
  subseq l1 l2 -> subseq l2 l3 -> subseq l1 l3.
Proof.
  intros H12 H23. revert l1 H12.
  induction H23 as [|x l2 l3 H IH|x l2 l3 H IH]; intros l1 H12.
  - exact H12.
  - inversion H12; subst.
    + constructor. apply IH. assumption.
    + apply subseq_drop. apply IH. assumption.
  - apply subseq_drop. apply IH. assumption.
Qed.

Lemma subseq_filter {A : Type} (p : A -> bool) (l : list A) :
  subseq (filter p l) l.
Proof.
  induction l as [|x l IH]; simpl.
  - constructor.
  - destruct (p x); constructor; assumption.
Qed.

Lemma subseq_In {A : Type} (l1 l2 : list A) (x : A) :
  subseq l1 l2 -> In x l1 -> In x l2.
Proof.
  induction 1; simpl; intuition.
Qed.

Lemma subseq_Forall {A : Type} (P : A -> Prop) (l1 l2 : list A) :
  subseq l1 l2 -> Forall P l2 -> Forall P l1.
Proof.
  intros Hs Hf. rewrite Forall_forall in *.
  intros x Hx. apply Hf. eapply subseq_In; eassumption.
Qed.

(** Deleting elements keeps a list ordered, for a transitive order. *)
Lemma subseq_StronglySorted {A : Type} (R : A -> A -> Prop) (l1 l2 : list A) :
  subseq l1 l2 -> StronglySorted R l2 -> StronglySorted R l1.
Proof.
  induction 1 as [|x l1 l2 H IH|x l1 l2 H IH]; intro Hs.
  - constructor.
  - apply StronglySorted_inv in Hs. destruct Hs as [Hs Hx].
    constructor.
    + apply IH. assumption.
    + eapply subseq_Forall; eassumption.
  - apply StronglySorted_inv in Hs. apply IH. apply Hs.
Qed.

Lemma Qle_transitive : Relations_1.Transitive Qle.
Proof. intros x y z Hxy Hyz. lra. Qed.

Lemma subseq_sorted_le (l1 l2 : list Q) :
  subseq l1 l2 -> Sorted Qle l2 -> Sorted Qle l1.
Proof.
  intros Hs Hl. apply StronglySorted_Sorted.
  eapply subseq_StronglySorted; [eassumption|].
  apply Sorted_StronglySorted; [exact Qle_transitive | assumption].
Qed.

(** ** AubioOnset.py: the policy table *)

Import AubioOnset.

(** C7.  The policy selector is total over the integers: every
    [expected_notes] falls in exactly one of the three buckets, [<= 8]
    (negative and zero included) with method "hfc" and threshold 0.3,
    [9..16] with "default" and 0.5, [> 16] with "energy" and 0.7; the window
    is always 512 samples and the hop 256.  The selector is a pure function,
    so it has a value, and raises nothing, on every integer. *)
Theorem select_config_total (expected_notes : Z) :
  let c := select_config expected_notes in
  win_s c = 512%Z /\ hop_s c = 256%Z /\
  (((expected_notes <= 8)%Z /\
      onset_method c = "hfc"%string /\ threshold c = 3 # 10)
   \/ ((9 <= expected_notes <= 16)%Z /\
      onset_method c = "default"%string /\ threshold c = 5 # 10)
   \/ ((16 < expected_notes)%Z /\
      onset_method c = "energy"%string /\ threshold c = 7 # 10)).
Proof.
  unfold select_config.
  destruct (Z.leb_spec expected_notes 8) as [H8|H8].
  - simpl. repeat split. left. repeat split. assumption.
  - destruct (Z.leb_spec expected_notes 16) as [H16|H16]; simpl.
    + repeat split. right. left. repeat split; lia.
    + repeat split. right. right. repeat split. assumption.
Qed.

(** ** Float arithmetic: what the laws give *)

Lemma rnd_zero {R : Rounding} : rnd 0 == 0.
Proof. apply (rnd_int 0%Z). simpl. lia. Qed.

Lemma rnd_nonneg {R : Rounding} (x : Q) : 0 <= x -> 0 <= rnd x.
Proof. intro H. apply rnd_mono in H. rewrite rnd_zero in H. exact H. Qed.

Lemma rnd_nonpos {R : Rounding} (x : Q) : x <= 0 -> rnd x <= 0.
Proof. intro H. apply rnd_mono in H. rewrite rnd_zero in H. exact H. Qed.

(** A positive float difference means a larger minuend. *)
Lemma rnd_sub_pos {R : Rounding} (a b : Q) : 0 < rnd (b - a) -> a < b.
Proof.
  intro H. apply Qnot_le_lt. intro Hle.
  assert (Hx : b - a <= 0) by lra.
  apply rnd_nonpos in Hx. lra.
Qed.

(** A double that is at most [x] is at most the double of [x]. *)
Lemma rnd_above {R : Rounding} (g x : Q) : rnd g == g -> g <= x -> g <= rnd x.
Proof. intros Hg H. apply rnd_mono in H. rewrite Hg in H. exact H. Qed.

Lemma double_min_pos : 0 < double_min.
Proof. reflexivity. Qed.

Lemma double_range : double_min <= double_max.
Proof. discriminate. Qed.

(** A quotient in the normal range rounds to a positive double in range. *)
Lemma rnd_in_range {R : Rounding} (q : Q) :
  double_min <= q -> q <= double_max ->
  0 < rnd q /\ Qabs (rnd q) <= double_max.
Proof.
  intros Hlo Hhi.
  apply rnd_mono in Hlo. rewrite rnd_min in Hlo.
  apply rnd_mono in Hhi. rewrite rnd_max in Hhi.
  pose proof double_min_pos as Hpos.
  split; [lra|]. rewrite Qabs_pos; lra.
Qed.

(** ** AubioOnset.py: refractory suppression *)

(** The loop, run from any state, appends what the scan keeps. *)
Lemma fold_refractory_step {R : Rounding} (g : Q) (l acc : list Q) (last : Q) :
  fst (fold_left (refractory_step g) l (acc, last)) = acc ++ scan_from g last l.
Proof.
  revert acc last. induction l as [|t l IH]; intros acc last; simpl.
  - rewrite app_nil_r. reflexivity.
  - destruct (Qle_bool g (rnd (t - last))).
    + rewrite IH. rewrite <- app_assoc. reflexivity.
    + apply IH.
Qed.

Lemma refractory_scan {R : Rounding} (g : Q) (l : list Q) :
  refractory g l = scan_from g (- g) l.
Proof. unfold refractory. exact (fold_refractory_step g l [] (- g)). Qed.

(** With [last_onset] starting at [-g], a first onset at a non-negative time
    passes the test whatever the double [g] is. *)
Lemma first_passes {R : Rounding} (g t : Q) :
  rnd g == g -> 0 <= t -> g <= rnd (t - - g).
Proof. intros Hg Ht. apply rnd_above; [exact Hg | lra]. Qed.


Lemma scan_from_subseq {R : Rounding} (g last : Q) (l : list Q) :
  subseq (scan_from g last l) l.
Proof.
  revert last. induction l as [|t l IH]; intro last; simpl.
  - constructor.
  - destruct (Qle_bool g (rnd (t - last))); constructor; apply IH.
Qed.

Lemma scan_from_HdRel {R : Rounding} (g last : Q) (l : list Q) :
  HdRel (gap_ge g) last (scan_from g last l).
Proof.
  induction l as [|t l IH]; simpl.
  - constructor.
  - case_Qle g (rnd (t - last)).
    + constructor. exact E.
    + exact IH.
Qed.

Lemma scan_from_separated {R : Rounding} (g last : Q) (l : list Q) :
  separated g (scan_from g last l).
Proof.
  revert last. induction l as [|t l IH]; intro last; simpl.
  - constructor.
  - destruct (Qle_bool g (rnd (t - last))).
    + constructor; [apply IH | apply scan_from_HdRel].
    + apply IH.
Qed.



(** The refractory stage when the division of line 75 succeeds. *)
Lemma refractory_stage_runs {R : Rounding} (samplerate min_wait_frames : Z)
    (raw : list Q) :
  (0 < min_wait_frames)%Z ->
  samplerate <> 0%Z ->
  Qabs (rnd (inject_Z (min_wait_frames * 256) / inject_Z samplerate))
  <= double_max ->
  refractory_stage samplerate min_wait_frames raw
  = Ok (scan_from (rnd (inject_Z (min_wait_frames * 256) / inject_Z samplerate))
          (- rnd (inject_Z (min_wait_frames * 256) / inject_Z samplerate)) raw).
Proof.
  intros Hw Hsr Hfin. unfold refractory_stage, min_wait_seconds.
  apply Z.ltb_lt in Hw. rewrite Hw.
  apply Z.eqb_neq in Hsr. rewrite Hsr. cbv zeta.
  change HOP_S with 256%Z.
  apply Qltb_false_iff in Hfin. rewrite Hfin. cbn [bind].
  rewrite refractory_scan. reflexivity.
Qed.



(** ** AubioOnset.py: leading- and trailing-edge suppression *)

Lemma in_window_iff (t : Q) :
  in_window t = true <-> 1 # 10 <= t /\ t <= 15 # 1.
Proof.
  unfold in_window. rewrite andb_true_iff, !Qle_bool_iff. reflexivity.
Qed.

Lemma edge_suppression_filter (l : list Q) :
  edge_suppression l = filter in_window l.
Proof.
  unfold edge_suppression, trailing_edge, leading_edge, in_window.
  induction l as [|t l IH]; simpl.
  - reflexivity.
  - destruct (Qle_bool min_onset_time t); simpl.
    + destruct (Qle_bool t max_recording_time); rewrite IH; reflexivity.
    + exact IH.
Qed.

(** C6.  Edge suppression drops exactly the onsets with [time < 0.1] and the
    onsets with [time > 15.0]: its output is the input with those deleted,
    so every output element lies in [0.1, 15.0] and every input element in
    those bounds is retained; the bounds themselves are kept. *)
Theorem edge_suppression_bounds (l : list Q) :
  edge_suppression l
  = filter (fun t => negb (Qltb t (1 # 10)) && negb (Qltb (15 # 1) t)) l
  /\ (forall t, In t (edge_suppression l) <-> In t l /\ 1 # 10 <= t /\ t <= 15 # 1)
  /\ edge_suppression [1 # 10; 15 # 1] = [1 # 10; 15 # 1]
  /\ edge_suppression [5 # 100; 1; 16] = [1].
Proof.
  split; [|split; [|split]].
  - rewrite edge_suppression_filter. apply filter_ext. intro t.
    unfold in_window, Qltb. rewrite !negb_involutive. reflexivity.
  - intro t. rewrite edge_suppression_filter, filter_In, in_window_iff.
    reflexivity.
  - reflexivity.
  - reflexivity.
Qed.

(** ** AubioOnset.py: the whole chain *)

Lemma filter_chain_positive_rate {R : Rounding}
    (samplerate min_wait_frames : Z) (l : list Q) :
  (0 < min_wait_frames)%Z -> samplerate <> 0%Z ->
  Qabs (rnd (gap_quotient samplerate min_wait_frames)) <= double_max ->
  filter_chain samplerate min_wait_frames l
  = Ok (filter in_window
          (scan_from (rnd (gap_quotient samplerate min_wait_frames))
             (- rnd (gap_quotient samplerate min_wait_frames)) l)).
Proof.
  intros Hw Hsr Hfin. unfold filter_chain.
  rewrite (refractory_stage_runs samplerate min_wait_frames l Hw Hsr Hfin).
  cbn [bind]. rewrite edge_suppression_filter. reflexivity.
Qed.

Lemma filter_chain_no_wait {R : Rounding} (samplerate min_wait_frames : Z)
    (l : list Q) :
  (min_wait_frames <= 0)%Z ->
  filter_chain samplerate min_wait_frames l = Ok (filter in_window l).
Proof.
  intro Hw. unfold filter_chain, refractory_stage.
  apply Z.ltb_ge in Hw. rewrite Hw. simpl.
  rewrite edge_suppression_filter. reflexivity.
Qed.

Lemma filter_chain_zero_rate {R : Rounding} (min_wait_frames : Z) (l : list Q) :
  (0 < min_wait_frames)%Z ->
  filter_chain 0 min_wait_frames l
  = Raise (Exn "ZeroDivisionError" "division by zero").
Proof.
  intro Hw. unfold filter_chain, refractory_stage, min_wait_seconds.
  apply Z.ltb_lt in Hw. rewrite Hw. reflexivity.
Qed.

(** A quotient too large for a double: line 75 raises. *)
Lemma filter_chain_overflow {R : Rounding} (samplerate min_wait_frames : Z)
    (l : list Q) :
  (0 < min_wait_frames)%Z -> samplerate <> 0%Z ->
  double_max < Qabs (rnd (gap_quotient samplerate min_wait_frames)) ->
  filter_chain samplerate min_wait_frames l
  = Raise (Exn "OverflowError" "integer division result too large for a float").
Proof.
  intros Hw Hsr Hinf. unfold filter_chain, refractory_stage, min_wait_seconds.
  apply Z.ltb_lt in Hw. rewrite Hw.
  apply Z.eqb_neq in Hsr. rewrite Hsr. cbv zeta.
  change HOP_S with 256%Z. fold (gap_quotient samplerate min_wait_frames).
  apply Qltb_iff in Hinf. rewrite Hinf. reflexivity.
Qed.

Lemma gap_quotient_nonneg (samplerate min_wait_frames : Z) :
  (0 <= min_wait_frames)%Z -> (0 < samplerate)%Z ->
  0 <= gap_quotient samplerate min_wait_frames.
Proof.
  intros Hw Hsr. unfold gap_quotient. apply Qle_shift_div_l.
  - change 0 with (inject_Z 0). rewrite <- Zlt_Qlt. assumption.
  - rewrite Qmult_0_l. change 0 with (inject_Z 0). rewrite <- Zle_Qle. lia.
Qed.

(** Neighbours a positive gap apart are strictly increasing. *)
Lemma separated_strict {R : Rounding} (g : Q) (l : list Q) :
  0 < g -> separated g l -> Sorted Qlt l.
Proof.
  intros Hg Hs. induction Hs as [|a l Hs IH Hhd].
  - constructor.
  - constructor; [exact IH|].
    destruct Hhd as [|b l' Hab]; constructor.
    unfold gap_ge in Hab. apply rnd_sub_pos. lra.
Qed.

Lemma Qlt_transitive : Relations_1.Transitive Qlt.
Proof. intros x y z Hxy Hyz. lra. Qed.

Lemma subseq_sorted_lt (l1 l2 : list Q) :
  subseq l1 l2 -> Sorted Qlt l2 -> Sorted Qlt l1.
Proof.
  intros Hs Hl. apply StronglySorted_Sorted.
  eapply subseq_StronglySorted; [eassumption|].
  apply Sorted_StronglySorted; [exact Qlt_transitive | assumption].
Qed.

(** C8, as the code has it.  For every input list in non-decreasing order,
    a positive sample rate and, when [min_wait_frames > 0], a gap quotient
    [min_wait_frames * 256 / samplerate] in the normal range of doubles, the
    chain returns a subsequence of its input, again in non-decreasing order;
    the result is strictly increasing when [min_wait_frames > 0], that is
    when refractory suppression runs. *)
Theorem filter_chain_order {R : Rounding} (samplerate min_wait_frames : Z)
    (l : list Q) :
  (0 < samplerate)%Z ->
  ((0 < min_wait_frames)%Z ->
   double_min <= gap_quotient samplerate min_wait_frames
   /\ gap_quotient samplerate min_wait_frames <= double_max) ->
  Sorted Qle l ->
  exists out,
    filter_chain samplerate min_wait_frames l = Ok out
    /\ subseq out l
    /\ Sorted Qle out
    /\ ((0 < min_wait_frames)%Z -> Sorted Qlt out).
Proof.
  intros Hsr Hrange Hl.
  destruct (Z.lt_ge_cases 0 min_wait_frames) as [Hw|Hw].
  - destruct (Hrange Hw) as [Hlo Hhi].
    destruct (rnd_in_range _ Hlo Hhi) as [Hg Hfin].
    eexists. split; [apply filter_chain_positive_rate; (lia || exact Hfin)|].
    set (g := rnd (gap_quotient samplerate min_wait_frames)) in *.
    assert (Hsub : subseq (filter in_window (scan_from g (- g) l)) l).
    { eapply subseq_trans; [apply subseq_filter | apply scan_from_subseq]. }
    split; [exact Hsub|]. split.
    + eapply subseq_sorted_le; eassumption.
    + intros _. eapply subseq_sorted_lt; [apply subseq_filter|].
      eapply separated_strict; [exact Hg | apply scan_from_separated].
  - eexists. split; [apply filter_chain_no_wait; assumption|].
    split; [apply subseq_filter|]. split.
    + eapply subseq_sorted_le; [apply subseq_filter | assumption].
    + intro. lia.
Qed.

Lemma filter_chain_order_witness :
  exists out,
    filter_chain 32768 32 [1 # 16; 1; 1; 2; 16] = Ok out
    /\ subseq out [1 # 16; 1; 1; 2; 16]
    /\ Sorted Qle out
    /\ ((0 < 32)%Z -> Sorted Qlt out).
Proof.
  apply (filter_chain_order (R := binary64) 32768 32
           [1 # 16; 1; 1; 2; 16]).
  - lia.
  - intros _. split; discriminate.
  - repeat constructor; discriminate.
Defined.

(** C8, as stated, fails when refractory suppression is switched off: with
    [min_wait_frames = 0] two equal times both survive, and the result is
    not strictly increasing. *)
Lemma filter_chain_not_strict :
  Sorted Qle [1; 1]
  /\ filter_chain 44100 0 [1; 1] = Ok [1; 1]
  /\ ~ Sorted Qlt [1; 1].
Proof.
  split; [|split].
  - repeat constructor; discriminate.
  - reflexivity.
  - intro H. inversion H as [|a l Hs Hhd]; subst.
    inversion Hhd as [|b l' Hlt]; subst.
    revert Hlt. unfold Qlt. simpl. lia.
Qed.

(** ** AubioOnset.py: idempotence *)

(** Scanning the edge-suppressed refractory output again drops nothing,
    for any double as gap, positive or not. *)
Lemma rescan_fixed {R : Rounding} (g : Q) (l : list Q) :
  forall last a,
    rescan_inv g last a ->
    scan_from g a (filter in_window (scan_from g last l))
    = filter in_window (scan_from g last l).
Proof.
  induction l as [|t l IH]; intros last a Hinv; simpl.
  - reflexivity.
  - case_Qle g (rnd (t - last)).
    + simpl. destruct (in_window t) eqn:Hw.
      * apply in_window_iff in Hw. destruct Hw as [Hlo Hhi]. simpl.
        assert (Hkeep : g <= rnd (t - a)).
        { destruct Hinv as [Hlow | [Ha [-> | Habove]]].
          - apply Qle_trans with (rnd ((1 # 10) - a)); [exact Hlow|].
            apply rnd_mono. lra.
          - exact E.
          - apply Qle_trans with (rnd (t - last)); [exact E|].
            apply rnd_mono. lra. }
        apply Qle_bool_iff in Hkeep. rewrite Hkeep.
        f_equal. apply IH. right. split; [exact Hhi | left; reflexivity].
      * apply IH.
        assert (Hout : t < 1 # 10 \/ 15 # 1 < t).
        { unfold in_window in Hw. apply andb_false_iff in Hw.
          destruct Hw as [Hw | Hw]; apply Qle_bool_false in Hw;
            [left | right]; exact Hw. }
        destruct Hinv as [Hlow | [Ha Hlast]].
        -- left. exact Hlow.
        -- destruct Hout as [Hbelow | Habove].
           ++ left. apply Qle_trans with (rnd (t - last)); [exact E|].
              apply rnd_mono. destruct Hlast as [-> | Hlast]; lra.
           ++ right. split; [exact Ha | right; exact Habove].
    + apply IH. exact Hinv.
Qed.

Lemma filter_in_window_idem (l : list Q) :
  filter in_window (filter in_window l) = filter in_window l.
Proof.
  induction l as [|t l IH]; simpl.
  - reflexivity.
  - destruct (in_window t) eqn:Hw; simpl; [rewrite Hw, IH|]; auto.
Qed.

(** C9.  The chain (refractory suppression, then leading-edge, then
    trailing-edge suppression) under one fixed configuration is idempotent:
    whatever the input list, ordered or not, the chain applied to its own
    output returns that output unchanged.  The chain has an output except
    when [min_wait_frames > 0] and the division of line 75 fails: by zero,
    or with a quotient too large for a double. *)
Theorem filter_chain_idempotent {R : Rounding} (samplerate min_wait_frames : Z)
    (l : list Q) :
  match filter_chain samplerate min_wait_frames l with
  | Ok out => filter_chain samplerate min_wait_frames out = Ok out
  | Raise _ =>
      (0 < min_wait_frames)%Z
      /\ (samplerate = 0%Z
          \/ double_max < Qabs (rnd (gap_quotient samplerate min_wait_frames)))
  end.
Proof.
  destruct (Z.lt_ge_cases 0 min_wait_frames) as [Hw|Hw].
  - destruct (Z.eq_dec samplerate 0) as [->|Hsr].
    + rewrite filter_chain_zero_rate by assumption. auto.
    + destruct (Qlt_le_dec double_max
                  (Qabs (rnd (gap_quotient samplerate min_wait_frames))))
        as [Hinf|Hfin].
      * rewrite filter_chain_overflow by assumption. auto.
      * rewrite !filter_chain_positive_rate by assumption.
        f_equal. rewrite rescan_fixed.
        -- apply filter_in_window_idem.
        -- left. apply rnd_above; [apply rnd_idem | lra].
  - rewrite !filter_chain_no_wait by assumption.
    f_equal. apply filter_in_window_idem.
Qed.

(** ** AubioOnset.py: the gap and the ties on doubles

    At 44100 Hz with [min_wait_frames = 30] the quotient 7680/44100 is not a
    double: line 75 gives 0.17414965986394557, the double just below it. *)
Example gap_at_44100 :
  exists g,
    min_wait_seconds 30 44100 = Ok g
    /\ g == 6274402746159711 # 36028797018963968
    /\ g < inject_Z (30 * 256) / inject_Z 44100.
Proof.
  eexists. split; [vm_compute; reflexivity|]. split; vm_compute; reflexivity.
Qed.

(** An onset that double after the one kept before it is kept. *)
Example tie_at_44100 :
  refractory_stage 44100 30 [0; 6274402746159711 # 36028797018963968]
  = Ok [0; 6274402746159711 # 36028797018963968].
Proof. vm_compute. reflexivity. Qed.

(** The doubles 0.10585034013605446 and 0.28 are both returned: their
    float difference is the gap, their exact distance is below the exact
    quotient. *)
Example rounded_difference_at_44100 :
  let a := 3813660419150201 # 36028797018963968 in
  let b := 1261007895663739 # 4503599627370496 in
  filter_chain 44100 30 [a; b] = Ok [a; b]
  /\ b - a < inject_Z (30 * 256) / inject_Z 44100.
Proof. split; vm_compute; reflexivity. Qed.

(** With [min_wait_frames = 10 ** 400] the division of line 75 raises. *)
Example gap_overflow :
  filter_chain 44100 (10 ^ 400) [1; 2]
  = Raise (Exn "OverflowError" "integer division result too large for a float").
Proof. vm_compute. reflexivity. Qed.

(** ** librosa_onset_detection.py: the beat-proximity stage *)

Import LibrosaOnset.

Lemma bind_Ok {A B : Type} (r : result A) (k : A -> result B) (b : B) :
  bind r k = Ok b -> exists a, r = Ok a /\ k a = Ok b.
Proof.
  destruct r as [a|e]; simpl; intro H.
  - exists a. split; [reflexivity | exact H].
  - discriminate.
Qed.

(** [min(..., key=...)] returns an element of the sequence whose key no other
    element undercuts. *)
Lemma fold_min_key (key : Q -> Q) (xs : list Q) :
  forall x,
    let c := fold_left (fun best x' => if Qltb (key x') (key best) then x' else best)
               xs x in
    In c (x :: xs) /\ forall b, In b (x :: xs) -> key c <= key b.
Proof.
  induction xs as [|y ys IH]; intro x; simpl.
  - split; [left; reflexivity|].
    intros b [<-|[]]. apply Qle_refl.
  - destruct (Qltb (key y) (key x)) eqn:E.
    + apply Qltb_iff in E.
      destruct (IH y) as [Hin Hmin]. simpl in Hin, Hmin. split.
      * right. exact Hin.
      * intros b [<-|Hb].
        -- apply Qle_trans with (key y); [apply Hmin; left; reflexivity|].
           apply Qlt_le_weak. exact E.
        -- apply Hmin. exact Hb.
    + apply Qltb_false_iff in E.
      destruct (IH x) as [Hin Hmin]. simpl in Hin, Hmin. split.
      * destruct Hin as [Hin|Hin]; [left; exact Hin | right; right; exact Hin].
      * intros b [<-|[<-|Hb]].
        -- apply Hmin. left. reflexivity.
        -- apply Qle_trans with (key x); [apply Hmin; left; reflexivity | exact E].
        -- apply Hmin. right. exact Hb.
Qed.

Lemma py_min_key_nearest (key : Q -> Q) (l : list Q) :
  l <> [] ->
  exists c, py_min_key key l = Ok c
            /\ In c l /\ forall b, In b l -> key c <= key b.
Proof.
  destruct l as [|x xs]; [congruence|]. intros _.
  eexists. split; [reflexivity|]. apply fold_min_key.
Qed.

(** The code's test and the specification's wording agree. *)
Lemma keeps_iff {R : Rounding} (beats : list Q) (onset : Q) :
  beats <> [] -> (keeps beats onset = true <-> near_a_beat beats onset).
Proof.
  intro Hne. unfold keeps, near_a_beat.
  destruct (py_min_key_nearest (fun x => Qabs (rnd (x - onset))) beats Hne)
    as (c & -> & Hin & Hmin).
  rewrite Qltb_iff. unfold beat_threshold. split.
  - intro Hlt. exists c. auto.
  - intros (n & Hn & _ & Hlt).
    apply Qle_lt_trans with (Qabs (rnd (n - onset)));
      [apply Hmin; exact Hn | exact Hlt].
Qed.

(** The loop of lines 159-163 keeps, in order, the onsets that pass the
    test. *)
Lemma proximity_loop {R : Rounding} (beats : pyseq) (onsets acc : list Q) :
  items beats <> [] ->
  for_each (proximity_body beats) onsets acc
  = Ok (acc ++ filter (keeps (items beats)) onsets).
Proof.
  intro Hne. revert acc. induction onsets as [|o os IH]; intro acc; simpl.
  - rewrite app_nil_r. reflexivity.
  - unfold proximity_body at 1, keeps at 1.
    destruct (py_min_key_nearest (fun x => Qabs (rnd (x - o))) (items beats) Hne)
      as (c & -> & _). cbn [bind].
    destruct (Qltb (Qabs (rnd (c - o))) beat_threshold).
    + rewrite IH, <- app_assoc. reflexivity.
    + apply IH.
Qed.

Lemma len_positive (s : pyseq) : items s <> [] -> (0 <? len s)%Z = true.
Proof.
  intro H. apply Z.ltb_lt. unfold len.
  destruct (items s); [congruence | simpl; lia].
Qed.

(** Lines 153-169 on the onset list the energy filter built, with at least
    one beat: the filtered list when it holds at least 30% of the onsets;
    otherwise line 167 asks a list for [tolist]. *)
Lemma beat_proximity_cases {R : Rounding} (onsets beats : list Q) :
  beats <> [] ->
  beat_proximity (PyList onsets) (NdArray beats)
  = if Qltb (inject_Z (Z.of_nat (List.length (filter (keeps beats) onsets))))
            (inject_Z (Z.of_nat (List.length onsets)) * (3 # 10))
    then Raise no_tolist
    else Ok (PyList (filter (keeps beats) onsets)).
Proof.
  intro Hne. unfold beat_proximity.
  rewrite len_positive by exact Hne.
  rewrite proximity_loop by exact Hne. simpl.
  reflexivity.
Qed.

(** Without beats line 171 does the same. *)
Lemma beat_proximity_no_beats {R : Rounding} (onsets : list Q) :
  beat_proximity (PyList onsets) (NdArray []) = Raise no_tolist.
Proof. reflexivity. Qed.

(** First half of C1: when the stage returns, it returns exactly the onsets
    whose nearest beat is less than 0.2 s away, in their order. *)
Lemma beat_proximity_kept {R : Rounding} (onsets beats : list Q) (out : pyseq) :
  beats <> [] ->
  beat_proximity (PyList onsets) (NdArray beats) = Ok out ->
  out = PyList (filter (keeps beats) onsets)
  /\ forall t, In t (items out) <-> In t onsets /\ near_a_beat beats t.
Proof.
  intros Hne H. rewrite beat_proximity_cases in H by exact Hne.
  destruct (Qltb _ _); [discriminate|].
  injection H as <-. split; [reflexivity|].
  intro t. simpl. rewrite filter_In, keeps_iff by exact Hne. reflexivity.
Qed.

(** C1, second half, on the code.  Quantified over every onset list and
    every non-empty beat list that reach the beat-proximity stage: whenever
    the filtered list holds less than 30% of the onsets, the stage does not
    return the unfiltered onsets but raises [AttributeError], because
    [onset_times] is by then the Python list built at line 151. *)
Theorem beat_proximity_fallback_raises {R : Rounding} (onsets beats : list Q) :
  beats <> [] ->
  inject_Z (Z.of_nat (List.length (filter (keeps beats) onsets)))
    < inject_Z (Z.of_nat (List.length onsets)) * (3 # 10) ->
  beat_proximity (PyList onsets) (NdArray beats) = Raise no_tolist.
Proof.
  intros Hne Hlt. rewrite beat_proximity_cases by exact Hne.
  apply Qltb_iff in Hlt. rewrite Hlt. reflexivity.
Qed.

(** The example of the specification: five onsets, one far beat. *)
Lemma beat_proximity_fallback_raises_witness :
  beat_proximity (PyList [1; 2; 3; 4; 5]) (NdArray [100]) = Raise no_tolist.
Proof.
  apply (beat_proximity_fallback_raises (R := binary64)
           [1; 2; 3; 4; 5] [100]).
  - discriminate.
  - vm_compute. reflexivity.
Defined.

(** The whole second script on the example of the specification: the
    fallback is reached, [AttributeError] is raised, and the caller turns it
    into an empty onset list; with beats next to three of the five onsets the
    filtered list comes back. *)
Example combined_on_examples :
  detect_onsets_librosa example_world "take.wav" (- (60 # 1)) "combined"
  = ([Ev_load "take.wav"%string;
      Ev_stderr "Error processing take.wav: 'list' object has no attribute 'tolist'"],
     Ok (PyList []))
  /\ detect_onsets_librosa steady_world "take.wav" (- (60 # 1)) "combined"
     = ([Ev_load "take.wav"%string], Ok (PyList [1; 2; 5])).
Proof. split; vm_compute; reflexivity. Qed.

(** ** librosa_onset_detection.py: the onset-only and beat-only methods *)

Lemma energy_filter_list {R : Rounding} (y : list Q) (sr : Z) (min_linear : Q)
    (times out : pyseq) :
  energy_filter y sr min_linear times = Ok out -> exists l, out = PyList l.
Proof.
  unfold energy_filter. intro H.
  apply bind_Ok in H. destruct H as (kept & _ & H).
  injection H as <-. exists kept. reflexivity.
Qed.

Lemma tolist_after_energy_filter {R : Rounding} (y : list Q) (sr : Z) (min_linear : Q)
    (times : pyseq) :
  exists e,
    (filtered <- energy_filter y sr min_linear times ;; tolist filtered)
    = Raise e.
Proof.
  destruct (energy_filter y sr min_linear times) as [out|e] eqn:E; simpl.
  - apply energy_filter_list in E. destruct E as [l ->].
    exists no_tolist. reflexivity.
  - exists e. reflexivity.
Qed.

(** [detect_onsets_only] never returns: every path ends in an exception. *)
Lemma detect_onsets_only_raises {R : Rounding} (w : World) (y : list Q) (sr : Z) (min_linear : Q) :
  exists e, detect_onsets_only w y sr min_linear = Raise e.
Proof.
  unfold detect_onsets_only.
  destruct (onset_strength w y sr) as [env|e]; simpl; [|eexists; reflexivity].
  destruct (onset_detect w env sr (2 # 10) 10) as [frames|e]; simpl;
    [|eexists; reflexivity].
  destruct (frames_to_time w frames sr) as [times|e]; simpl;
    [|eexists; reflexivity].
  apply tolist_after_energy_filter.
Qed.

Lemma detect_beats_only_raises {R : Rounding} (w : World) (y : list Q) (sr : Z) (min_linear : Q) :
  exists e, detect_beats_only w y sr min_linear = Raise e.
Proof.
  unfold detect_beats_only.
  destruct (onset_strength w y sr) as [env|e]; simpl; [|eexists; reflexivity].
  destruct (beat_track w env sr 100) as [[tempo frames]|e]; simpl;
    [|eexists; reflexivity].
  destruct (frames_to_time w frames sr) as [times|e]; simpl;
    [|eexists; reflexivity].
  apply tolist_after_energy_filter.
Qed.

(** When the library calls and the energy filter all succeed, the exception
    is the [AttributeError] of lines 78 and 108. *)
Lemma detect_onsets_only_tolist {R : Rounding} (w : World) (y : list Q) (sr : Z)
    (min_linear : Q) (env frames times : list Q) (kept : pyseq) :
  onset_strength w y sr = Ok env ->
  onset_detect w env sr (2 # 10) 10 = Ok frames ->
  frames_to_time w frames sr = Ok times ->
  energy_filter y sr min_linear (NdArray times) = Ok kept ->
  detect_onsets_only w y sr min_linear = Raise no_tolist.
Proof.
  intros H1 H2 H3 H4. unfold detect_onsets_only.
  rewrite H1. simpl. rewrite H2. simpl. rewrite H3. simpl. rewrite H4. simpl.
  apply energy_filter_list in H4. destruct H4 as [l ->]. reflexivity.
Qed.

Lemma detect_beats_only_tolist {R : Rounding} (w : World) (y : list Q) (sr : Z)
    (min_linear tempo : Q) (env frames times : list Q) (kept : pyseq) :
  onset_strength w y sr = Ok env ->
  beat_track w env sr 100 = Ok (tempo, frames) ->
  frames_to_time w frames sr = Ok times ->
  energy_filter y sr min_linear (NdArray times) = Ok kept ->
  detect_beats_only w y sr min_linear = Raise no_tolist.
Proof.
  intros H1 H2 H3 H4. unfold detect_beats_only.
  rewrite H1. simpl. rewrite H2. simpl. rewrite H3. simpl. rewrite H4. simpl.
  apply energy_filter_list in H4. destruct H4 as [l ->]. reflexivity.
Qed.

(** The handler of lines 42-44 applied to a body that raised. *)
Lemma handler_runs {R : Rounding} (w : World) (file : string) (db : Q) (m : string)
    (tr : list event) (e : exn) :
  detect_body w file db m = (tr, Raise e) ->
  detect_onsets_librosa w file db m
  = (tr ++ [Ev_stderr ("Error processing " ++ file ++ ": " ++ exn_str e)],
     Ok (PyList [])).
Proof.
  intro H. unfold detect_onsets_librosa. rewrite H. reflexivity.
Qed.

(** C2.  For every audio input that loads, [detect_onsets_librosa] with
    method "onset" or "beat" returns the empty list: the body of the [try]
    raises (at the latest when [tolist] is called on the list the energy
    filter built) and the handler logs the exception and returns []. *)
Theorem onset_and_beat_methods_empty {R : Rounding} (w : World) (file : string) (db : Q)
    (y : list Q) (sr : Z) (m : string) :
  load w file = Ok (y, sr) ->
  m = "onset"%string \/ m = "beat"%string ->
  exists e,
    detect_body w file db m = ([Ev_load file], Raise e)
    /\ detect_onsets_librosa w file db m
       = ([Ev_load file;
           Ev_stderr ("Error processing " ++ file ++ ": " ++ exn_str e)],
          Ok (PyList [])).
Proof.
  intros Hload Hm.
  assert (Hbody : exists e, detect_body w file db m = ([Ev_load file], Raise e)).
  { unfold detect_body. rewrite Hload. cbn [emit lift io_bind app].
    destruct (pow10 w (db / 20)) as [min_linear|e]; [|eexists; reflexivity].
    destruct Hm as [-> | ->]; cbn [String.eqb Ascii.eqb Bool.eqb].
    - destruct (detect_onsets_only_raises w y sr min_linear) as [e ->].
      exists e. reflexivity.
    - destruct (detect_beats_only_raises w y sr min_linear) as [e ->].
      exists e. reflexivity. }
  destruct Hbody as [e Hbody]. exists e. split; [exact Hbody|].
  apply (handler_runs w file db m [Ev_load file] e Hbody).
Qed.

Lemma onset_and_beat_methods_empty_witness :
  exists e,
    detect_body example_world "take.wav" (- (60 # 1)) "onset"
    = ([Ev_load "take.wav"%string], Raise e)
    /\ detect_onsets_librosa example_world "take.wav" (- (60 # 1)) "onset"
       = ([Ev_load "take.wav"%string;
           Ev_stderr ("Error processing " ++ "take.wav" ++ ": " ++ exn_str e)],
          Ok (PyList [])).
Proof.
  apply (onset_and_beat_methods_empty example_world "take.wav" (- (60 # 1))
           (repeat (1 # 2) 3000) 512 "onset").
  - reflexivity.
  - left. reflexivity.
Defined.

(** ** librosa_onset_detection.py: what the caller gets *)

Lemma tolist_list (s out : pyseq) :
  tolist s = Ok out -> exists l, out = PyList l.
Proof.
  destruct s as [l|l]; simpl; intro H; [|discriminate].
  injection H as <-. exists l. reflexivity.
Qed.

Lemma beat_proximity_list {R : Rounding} (onset_times beat_times out : pyseq) :
  beat_proximity onset_times beat_times = Ok out -> exists l, out = PyList l.
Proof.
  unfold beat_proximity.
  destruct (0 <? len beat_times)%Z; [|apply tolist_list].
  intro H. apply bind_Ok in H. destruct H as (kept & _ & H).
  destruct (Qltb _ _).
  - apply tolist_list in H. exact H.
  - injection H as <-. exists kept. reflexivity.
Qed.

Lemma detect_combined_list {R : Rounding} (w : World) (y : list Q) (sr : Z) (min_linear : Q)
    (out : pyseq) :
  detect_combined w y sr min_linear = Ok out -> exists l, out = PyList l.
Proof.
  unfold detect_combined. intro H.
  apply bind_Ok in H. destruct H as (env & _ & H).
  apply bind_Ok in H. destruct H as (frames & _ & H).
  apply bind_Ok in H. destruct H as ([tempo beat_frames] & _ & H).
  apply bind_Ok in H. destruct H as (onset_times & _ & H).
  apply bind_Ok in H. destruct H as (beat_times & _ & H).
  apply bind_Ok in H. destruct H as (filtered & _ & H).
  apply beat_proximity_list in H. exact H.
Qed.

Lemma detect_body_list {R : Rounding} (w : World) (file : string) (db : Q) (m : string)
    (tr : list event) (out : pyseq) :
  detect_body w file db m = (tr, Ok out) -> exists l, out = PyList l.
Proof.
  unfold detect_body. cbn [emit io_bind].
  destruct (load w file) as [[y sr]|e]; cbn [lift io_bind]; [|discriminate].
  destruct (pow10 w (db / 20)) as [min_linear|e]; [|discriminate].
  destruct (String.eqb m "onset").
  { destruct (detect_onsets_only_raises w y sr min_linear) as [e ->].
    discriminate. }
  destruct (String.eqb m "beat").
  { destruct (detect_beats_only_raises w y sr min_linear) as [e ->].
    discriminate. }
  destruct (String.eqb m "combined"); [|discriminate].
  destruct (detect_combined w y sr min_linear) as [s|e] eqn:E; [|discriminate].
  intro H. injection H as _ <-.
  apply detect_combined_list in E. exact E.
Qed.

(** The function always returns, and returns a Python list: it never raises
    and never hands back an array. *)
Lemma detect_onsets_librosa_returns {R : Rounding} (w : World) (file : string) (db : Q)
    (m : string) :
  exists tr l, detect_onsets_librosa w file db m = (tr, Ok (PyList l)).
Proof.
  destruct (detect_body w file db m) as [tr [out|e]] eqn:E.
  - destruct (detect_body_list _ _ _ _ _ _ E) as [l ->].
    exists tr, l. unfold detect_onsets_librosa. rewrite E. reflexivity.
  - eexists. exists []. apply handler_runs. exact E.
Qed.

Lemma json_dump_result_dict (a : Args) (l : list Q) :
  json_dump (result_dict a (PyList l)) = Ok (document a l).
Proof. reflexivity. Qed.

(** [main] once detection has returned the list [l]. *)
Lemma main_after_detection {R : Rounding} (w : World) (a : Args) (tr : list event) (l : list Q) :
  path_exists w (audio_file a) = true ->
  detect_onsets_librosa w (audio_file a) (min_db a) (method a)
  = (tr, Ok (PyList l)) ->
  main w a =
    match output_path a with
    | None => (tr ++ [Ev_stdout (document a l)], Finished)
    | Some p =>
        match open_for_write w p with
        | Ok _ => (tr ++ [Ev_file p (document a l)], Finished)
        | Raise e => (tr ++ [], Uncaught e)
        end
    end.
Proof.
  intros Hex Hdet. unfold main. rewrite Hex. cbn [negb].
  rewrite Hdet. unfold write_result. cbn [io_bind].
  destruct (output_path a) as [p|].
  - destruct (open_for_write w p) as [u|e]; cbn [lift io_bind];
      [rewrite json_dump_result_dict|]; reflexivity.
  - cbn [lift io_bind]. rewrite json_dump_result_dict. reflexivity.
Qed.

Lemma emitted_app (tr1 tr2 : list event) :
  emitted (tr1 ++ tr2) = emitted tr1 ++ emitted tr2.
Proof. unfold emitted. apply flat_map_app. Qed.

(** Detection itself writes no document. *)
Lemma detect_body_emits_nothing {R : Rounding} (w : World) (file : string) (db : Q)
    (m : string) :
  emitted (fst (detect_body w file db m)) = [].
Proof.
  unfold detect_body. cbn [emit io_bind].
  destruct (load w file) as [[y sr]|e]; cbn [lift io_bind]; [|reflexivity].
  destruct (pow10 w (db / 20)) as [min_linear|e]; [|reflexivity].
  destruct (String.eqb m "onset");
    [destruct (detect_onsets_only w y sr min_linear); reflexivity|].
  destruct (String.eqb m "beat");
    [destruct (detect_beats_only w y sr min_linear); reflexivity|].
  destruct (String.eqb m "combined");
    [destruct (detect_combined w y sr min_linear); reflexivity|].
  reflexivity.
Qed.

Lemma detect_onsets_librosa_emits_nothing {R : Rounding} (w : World) (file : string) (db : Q)
    (m : string) :
  emitted (fst (detect_onsets_librosa w file db m)) = [].
Proof.
  pose proof (detect_body_emits_nothing w file db m) as H.
  unfold detect_onsets_librosa.
  destruct (detect_body w file db m) as [tr [out|e]]; simpl in *.
  - exact H.
  - rewrite emitted_app, H. reflexivity.
Qed.

(** C4.  Whenever anything raised inside the [try] of
    [detect_onsets_librosa] (loading, the dB conversion, acquisition,
    filtering), the function catches it, writes the message to standard
    error and returns an empty onset list; the run is not aborted: [main]
    goes on to print a document with no onsets and finishes normally. *)
Theorem detection_failure_degrades {R : Rounding} (w : World) (a : Args) (tr : list event)
    (e : exn) :
  detect_body w (audio_file a) (min_db a) (method a) = (tr, Raise e) ->
  let line := ("Error processing " ++ audio_file a ++ ": " ++ exn_str e)%string in
  detect_onsets_librosa w (audio_file a) (min_db a) (method a)
  = (tr ++ [Ev_stderr line], Ok (PyList []))
  /\ (path_exists w (audio_file a) = true ->
      output_path a = None ->
      main w a = ((tr ++ [Ev_stderr line]) ++ [Ev_stdout (document a [])],
                  Finished)).
Proof.
  intros Hbody line.
  pose proof (handler_runs _ _ _ _ _ _ Hbody) as Hdet. fold line in Hdet.
  split; [exact Hdet|].
  intros Hex Hout.
  rewrite (main_after_detection w a _ [] Hex Hdet), Hout. reflexivity.
Qed.

Lemma detection_failure_degrades_witness :
  let a := mkArgs "take.wav" (- (50 # 1)) "combined" None in
  detect_onsets_librosa undecodable_world "take.wav" (- (50 # 1)) "combined"
  = ([Ev_load "take.wav"%string;
      Ev_stderr "Error processing take.wav: format not recognised"],
     Ok (PyList []))
  /\ main undecodable_world a
     = ([Ev_load "take.wav"%string;
         Ev_stderr "Error processing take.wav: format not recognised";
         Ev_stdout (document a [])],
        Finished).
Proof.
  intro a.
  destruct (detection_failure_degrades undecodable_world a
              [Ev_load "take.wav"%string]
              (Exn "NoBackendError" "format not recognised") eq_refl)
    as [Hdet Hmain].
  split.
  - exact Hdet.
  - exact (Hmain eq_refl eq_refl).
Defined.

(** C3, as the code has it.  A method name outside {onset, beat, combined}
    is not rejected before any work and does not fail: the file is loaded
    first; when loading and the dB conversion succeed, [ValueError("Unknown
    method: ...")] is raised inside the [try], the function's own handler
    writes it to standard error, and the caller receives the empty list. *)
Theorem unknown_method_logged {R : Rounding} (w : World) (file : string) (db : Q) (m : string) :
  m <> "onset"%string -> m <> "beat"%string -> m <> "combined"%string ->
  loads_of (fst (detect_onsets_librosa w file db m)) = [file]
  /\ snd (detect_onsets_librosa w file db m) = Ok (PyList [])
  /\ (forall y sr min_linear,
        load w file = Ok (y, sr) ->
        pow10 w (db / 20) = Ok min_linear ->
        detect_onsets_librosa w file db m
        = ([Ev_load file;
            Ev_stderr ("Error processing " ++ file ++ ": "
                       ++ "Unknown method: " ++ m)],
           Ok (PyList []))).
Proof.
  intros H1 H2 H3.
  apply String.eqb_neq in H1, H2, H3.
  unfold detect_onsets_librosa, detect_body. cbn [emit io_bind].
  rewrite H1, H2, H3.
  destruct (load w file) as [[y sr]|e]; cbn [lift io_bind].
  - destruct (pow10 w (db / 20)) as [min_linear|e].
    + split; [reflexivity|]. split; [reflexivity|].
      intros y' sr' ml' _ _. reflexivity.
    + split; [reflexivity|]. split; [reflexivity|].
      intros y' sr' ml' _ H. discriminate.
  - split; [reflexivity|]. split; [reflexivity|].
    intros y' sr' ml' H. discriminate.
Qed.

Lemma unknown_method_logged_witness :
  loads_of (fst (detect_onsets_librosa example_world "take.wav" (- (50 # 1)) "flux"))
  = ["take.wav"%string]
  /\ snd (detect_onsets_librosa example_world "take.wav" (- (50 # 1)) "flux")
     = Ok (PyList [])
  /\ detect_onsets_librosa example_world "take.wav" (- (50 # 1)) "flux"
     = ([Ev_load "take.wav"%string;
         Ev_stderr "Error processing take.wav: Unknown method: flux"],
        Ok (PyList [])).
Proof.
  destruct (unknown_method_logged example_world "take.wav" (- (50 # 1)) "flux")
    as (Hloads & Hret & Hlog); try discriminate.
  split; [exact Hloads|]. split; [exact Hret|].
  exact (Hlog (repeat (1 # 2) 3000) 512%Z (1 # 1000) eq_refl eq_refl).
Defined.

(** C3, as stated, fails: on a clip that loads, the unknown method "flux"
    makes the function return normally, with the empty list and after the
    file was read, so no error reaches the caller; on a clip that does not
    decode, the method name is never looked at. *)
Lemma unknown_method_not_raised :
  snd (detect_onsets_librosa example_world "take.wav" (- (50 # 1)) "flux")
  = Ok (PyList [])
  /\ (forall e,
        snd (detect_onsets_librosa example_world "take.wav" (- (50 # 1)) "flux")
        <> Raise e)
  /\ loads_of
       (fst (detect_onsets_librosa example_world "take.wav" (- (50 # 1)) "flux"))
     = ["take.wav"%string]
  /\ detect_onsets_librosa undecodable_world "take.wav" (- (50 # 1)) "flux"
     = ([Ev_load "take.wav"%string;
         Ev_stderr "Error processing take.wav: format not recognised"],
        Ok (PyList [])).
Proof.
  split; [reflexivity|]. split; [|split; reflexivity].
  intros e H. discriminate H.
Qed.

(** C10.  Every run that gets past the file check and can write to its
    destination finishes normally and emits exactly one document; its keys
    are [onset_times], [method], [min_db], [count], in that order; [count]
    is the length of [onset_times], which is the list detection returned;
    [method] and [min_db] are the run's parameters.  An empty onset list
    gives the document with [count] 0. *)
Theorem main_emits_document {R : Rounding} (w : World) (a : Args) :
  path_exists w (audio_file a) = true ->
  (forall p, output_path a = Some p -> open_for_write w p = Ok tt) ->
  exists tr l doc,
    main w a = (tr, Finished)
    /\ snd (detect_onsets_librosa w (audio_file a) (min_db a) (method a))
       = Ok (PyList l)
    /\ emitted tr = [doc]
    /\ keys doc = ["onset_times"; "method"; "min_db"; "count"]%string
    /\ member "onset_times" doc = Some (JArray (map JFloat l))
    /\ member "method" doc = Some (JString (method a))
    /\ member "min_db" doc = Some (JFloat (min_db a))
    /\ member "count" doc = Some (JInt (Z.of_nat (List.length l)))
    /\ (l = [] -> member "count" doc = Some (JInt 0)).
Proof.
  intros Hex Hopen.
  destruct (detect_onsets_librosa_returns w (audio_file a) (min_db a) (method a))
    as (tr & l & Hdet).
  pose proof (detect_onsets_librosa_emits_nothing
                w (audio_file a) (min_db a) (method a)) as Hquiet.
  rewrite Hdet in Hquiet. simpl in Hquiet.
  pose proof (main_after_detection w a tr l Hex Hdet) as Hmain.
  destruct (output_path a) as [p|] eqn:Hout.
  - rewrite (Hopen p eq_refl) in Hmain.
    exists (tr ++ [Ev_file p (document a l)]), l, (document a l).
    split; [exact Hmain|]. split; [rewrite Hdet; reflexivity|].
    split; [rewrite emitted_app, Hquiet; reflexivity|].
    repeat split. intros ->. reflexivity.
  - exists (tr ++ [Ev_stdout (document a l)]), l, (document a l).
    split; [exact Hmain|]. split; [rewrite Hdet; reflexivity|].
    split; [rewrite emitted_app, Hquiet; reflexivity|].
    repeat split. intros ->. reflexivity.
Qed.

Lemma main_emits_document_witness :
  exists tr l doc,
    main steady_world (mkArgs "take.wav" (- (50 # 1)) "combined" (Some "out.json"%string))
    = (tr, Finished)
    /\ snd (detect_onsets_librosa steady_world "take.wav" (- (50 # 1)) "combined")
       = Ok (PyList l)
    /\ emitted tr = [doc]
    /\ keys doc = ["onset_times"; "method"; "min_db"; "count"]%string
    /\ member "onset_times" doc = Some (JArray (map JFloat l))
    /\ member "method" doc = Some (JString "combined")
    /\ member "min_db" doc = Some (JFloat (- (50 # 1)))
    /\ member "count" doc = Some (JInt (Z.of_nat (List.length l)))
    /\ (l = [] -> member "count" doc = Some (JInt 0)).
Proof.
  apply (main_emits_document steady_world
           (mkArgs "take.wav" (- (50 # 1)) "combined" (Some "out.json"%string))).
  - reflexivity.
  - intros p _. reflexivity.
Defined.

(** No run emits anything else: without the input file, or when the output
    file cannot be opened, no document is written at all. *)
Lemma main_emits_nothing_else {R : Rounding} (w : World) (a : Args) :
  path_exists w (audio_file a) = false
  \/ (exists p e, output_path a = Some p /\ open_for_write w p = Raise e) ->
  emitted (fst (main w a)) = [] /\ snd (main w a) <> Finished.
Proof.
  intros [Hex | (p & e & Hout & Hopen)].
  - unfold main. rewrite Hex. simpl. split; [reflexivity | discriminate].
  - destruct (path_exists w (audio_file a)) eqn:Hex.
    + destruct (detect_onsets_librosa_returns
                  w (audio_file a) (min_db a) (method a)) as (tr & l & Hdet).
      pose proof (detect_onsets_librosa_emits_nothing
                    w (audio_file a) (min_db a) (method a)) as Hquiet.
      rewrite Hdet in Hquiet. simpl in Hquiet.
      rewrite (main_after_detection w a tr l Hex Hdet), Hout, Hopen. simpl.
      rewrite app_nil_r. split; [exact Hquiet | discriminate].
    + unfold main. rewrite Hex. simpl. split; [reflexivity | discriminate].
Qed.

(** * Further properties of AubioOnset.py *)

Lemma gap_ge_transitive {R : Rounding} (g : Q) :
  0 < g -> Relations_1.Transitive (gap_ge g).
Proof.
  intros Hg x y z Hxy Hyz. unfold gap_ge in *.
  assert (Hlt : x < y) by (apply rnd_sub_pos; lra).
  apply Qle_trans with (rnd (z - y)); [exact Hyz|].
  apply rnd_mono. lra.
Qed.

Lemma filter_Forall_in_window (l : list Q) :
  Forall (fun t => 1 # 10 <= t /\ t <= 15 # 1) (filter in_window l).
Proof.
  apply Forall_forall. intros t Ht.
  apply filter_In in Ht. apply in_window_iff. apply Ht.
Qed.

(** Past a positive gap, what survives both stages is pairwise separated. *)
Lemma chain_output_separated {R : Rounding} (g : Q) (raw : list Q) :
  0 < g ->
  StronglySorted (gap_ge g) (filter in_window (scan_from g (- g) raw)).
Proof.
  intro Hg. eapply subseq_StronglySorted; [apply subseq_filter|].
  apply Sorted_StronglySorted.
  - apply gap_ge_transitive. exact Hg.
  - apply scan_from_separated.
Qed.

(** X1.  With refractory suppression on, a positive sample rate and a gap
    quotient in the normal range of doubles, whatever the raw list (ordered
    or not), every returned onset lies in [0.1, 15.0], the returned onsets
    increase strictly, and the float difference of every two of them,
    neighbours or not, is at least the gap the code computed. *)
Theorem filter_chain_output_invariant {R : Rounding}
    (samplerate min_wait_frames : Z) (raw : list Q) :
  (0 < samplerate)%Z ->
  (0 < min_wait_frames)%Z ->
  double_min <= gap_quotient samplerate min_wait_frames ->
  gap_quotient samplerate min_wait_frames <= double_max ->
  let g := rnd (gap_quotient samplerate min_wait_frames) in
  exists out,
    filter_chain samplerate min_wait_frames raw = Ok out
    /\ Forall (fun t => 1 # 10 <= t /\ t <= 15 # 1) out
    /\ StronglySorted (gap_ge g) out
    /\ StronglySorted Qlt out.
Proof.
  intros Hsr Hw Hlo Hhi g.
  destruct (rnd_in_range _ Hlo Hhi) as [Hg Hfin]. fold g in Hg, Hfin.
  eexists. split; [apply filter_chain_positive_rate; (lia || exact Hfin)|].
  fold g.
  pose proof (chain_output_separated g raw Hg) as Hgap.
  split; [apply filter_Forall_in_window|]. split; [exact Hgap|].
  apply Sorted_StronglySorted; [exact Qlt_transitive|].
  eapply separated_strict; [exact Hg|].
  apply StronglySorted_Sorted. exact Hgap.
Qed.

Lemma filter_chain_output_invariant_witness :
  exists out,
    filter_chain 32768 32 [1 # 16; 1; 9 # 8; 2; 3; 16] = Ok out
    /\ out = [1; 2; 3]
    /\ Forall (fun t => 1 # 10 <= t /\ t <= 15 # 1) out
    /\ StronglySorted (gap_ge (rnd (gap_quotient 32768 32))) out
    /\ StronglySorted Qlt out.
Proof.
  assert (H1 : (0 < 32768)%Z) by lia.
  assert (H2 : (0 < 32)%Z) by lia.
  assert (H3 : double_min <= gap_quotient 32768 32) by discriminate.
  assert (H4 : gap_quotient 32768 32 <= double_max) by discriminate.
  destruct (filter_chain_output_invariant (R := binary64) 32768 32
              [1 # 16; 1; 9 # 8; 2; 3; 16] H1 H2 H3 H4)
    as (out & Hout & Hwin & Hgap & Hlt).
  exists out. split; [exact Hout|]. split; [|auto].
  assert (H : filter_chain 32768 32 [1 # 16; 1; 9 # 8; 2; 3; 16]
              = Ok [1; 2; 3]) by (vm_compute; reflexivity).
  congruence.
Defined.

(** Onsets an exact distance apart below a ceiling: the first one leaves
    room for the others. *)
Lemma apart_span (c hi : Q) (l : list Q) :
  forall a,
    Sorted (apart c) (a :: l) ->
    Forall (fun t => t <= hi) (a :: l) ->
    a + inject_Z (Z.of_nat (List.length l)) * c <= hi.
Proof.
  induction l as [|b l IH]; intros a Hs Hf.
  - inversion Hf as [|? ? Ha _]; subst.
    cbn [List.length Z.of_nat]. change (inject_Z 0) with 0.
    rewrite Qmult_0_l. lra.
  - inversion Hs as [|? ? Hs' Hhd]; subst.
    inversion Hhd as [|? ? Hab]; subst.
    inversion Hf as [|? ? _ Hf']; subst.
    specialize (IH b Hs' Hf'). unfold apart in Hab.
    change (List.length (b :: l)) with (S (List.length l)).
    rewrite Nat2Z.inj_succ. unfold Z.succ. rewrite inject_Z_plus.
    change (inject_Z 1) with 1.
    set (n := inject_Z (Z.of_nat (List.length l))) in *.
    assert (E : (n + 1) * c == n * c + c) by ring.
    rewrite E. set (p := n * c) in *. lra.
Qed.

(** In the normal range a float is within a unit roundoff of what it
    rounds. *)
Lemma rnd_bounds {R : Rounding} (x : Q) :
  double_min <= x -> x <= double_max ->
  x * (1 - unit_roundoff) <= rnd x /\ rnd x <= x * (1 + unit_roundoff).
Proof.
  intros Hlo Hhi. pose proof double_min_pos as Hpos.
  pose proof (rnd_error x) as He.
  rewrite (Qabs_pos x) in He by lra.
  specialize (He Hlo Hhi).
  apply Qabs_Qle_condition in He. unfold unit_roundoff in *. lra.
Qed.

Lemma double_min_small : double_min < (1 # 16777216) * (1 - unit_roundoff).
Proof. reflexivity. Qed.

Lemma double_max_large : 16 <= double_max.
Proof. discriminate. Qed.

(** Float gaps of at least [rnd q] are exact gaps of at least [q * slack],
    for a quotient [q] between 2^-24 and 16 and times up to 15 s. *)
Lemma separated_apart {R : Rounding} (q : Q) (l : list Q) :
  1 # 16777216 <= q -> q <= 16 ->
  Forall (fun t => 1 # 10 <= t /\ t <= 15 # 1) l ->
  separated (rnd q) l -> Sorted (apart (q * slack)) l.
Proof.
  intros Hqlo Hqhi Hwin Hs.
  pose proof double_min_small as Hsmall.
  pose proof double_max_large as Hlarge.
  pose proof double_min_pos as Hpos.
  assert (Hq : q * (1 - unit_roundoff) <= rnd q).
  { apply rnd_bounds; unfold unit_roundoff in *; lra. }
  induction Hs as [|a l Hs IH Hhd]; [constructor|].
  inversion Hwin as [|? ? [Halo Hahi] Hwin']; subst.
  constructor; [apply IH; exact Hwin'|].
  destruct Hhd as [|b l' Hab]; constructor.
  inversion Hwin' as [|? ? [Hblo Hbhi] _]; subst.
  unfold gap_ge in Hab. unfold apart, slack.
  destruct (Qlt_le_dec (b - a) double_min) as [Htiny|Hnormal].
  - assert (Hr : rnd (b - a) <= double_min).
    { rewrite <- rnd_min. apply rnd_mono. lra. }
    unfold unit_roundoff in *. lra.
  - assert (Hr : rnd (b - a) <= (b - a) * (1 + unit_roundoff)).
    { apply rnd_bounds; [exact Hnormal | lra]. }
    unfold unit_roundoff in *. lra.
Qed.

(** A bound that holds up to rounding slack holds exactly, the quotient
    being a fraction over the sample rate. *)
Lemma discrete_bound (m a sr : Z) :
  (0 < sr)%Z -> (sr < 2 ^ 32)%Z ->
  inject_Z m * (inject_Z a / inject_Z sr) * slack <= 149 # 10 ->
  inject_Z m * (inject_Z a / inject_Z sr) <= 149 # 10.
Proof.
  intros Hsr Hbound H. unfold slack in H.
  assert (HSr : 0 < inject_Z sr).
  { change 0 with (inject_Z 0). rewrite <- Zlt_Qlt. exact Hsr. }
  assert (E : inject_Z m * (inject_Z a / inject_Z sr)
              == inject_Z (m * a) / inject_Z sr).
  { rewrite inject_Z_mult. field. lra. }
  rewrite E in *. clear E.
  set (p := (m * a)%Z) in *.
  assert (H1 : inject_Z p * (9007199254740991 # 9007199254740993)
               <= (149 # 10) * inject_Z sr).
  { apply (Qmult_le_compat_r _ _ (inject_Z sr)) in H; [|lra].
    assert (E : inject_Z p / inject_Z sr
                * (9007199254740991 # 9007199254740993) * inject_Z sr
                == inject_Z p * (9007199254740991 # 9007199254740993))
      by (field; lra).
    rewrite E in H. exact H. }
  assert (HZ : (10 * 9007199254740991 * p <= 149 * 9007199254740993 * sr)%Z).
  { rewrite Zle_Qle, !inject_Z_mult.
    change (inject_Z 10) with 10. change (inject_Z 149) with 149.
    change (inject_Z 9007199254740991) with (9007199254740991 # 1).
    change (inject_Z 9007199254740993) with (9007199254740993 # 1). lra. }
  assert (HZ' : (10 * p <= 149 * sr)%Z).
  { change (2 ^ 32)%Z with 4294967296%Z in Hbound. lia. }
  apply Qle_shift_div_r; [exact HSr|].
  rewrite Zle_Qle, !inject_Z_mult in HZ'.
  change (inject_Z 10) with 10 in HZ'. change (inject_Z 149) with 149 in HZ'.
  lra.
Qed.

Lemma gap_quotient_lower (samplerate min_wait_frames : Z) :
  (0 < samplerate)%Z -> (samplerate < 2 ^ 32)%Z -> (0 < min_wait_frames)%Z ->
  1 # 16777216 <= gap_quotient samplerate min_wait_frames.
Proof.
  intros Hsr Hbound Hw. unfold gap_quotient.
  apply Qle_shift_div_l.
  - change 0 with (inject_Z 0). rewrite <- Zlt_Qlt. exact Hsr.
  - change (2 ^ 32)%Z with 4294967296%Z in Hbound.
    assert (HsrQ : inject_Z samplerate <= 4294967296).
    { change 4294967296 with (inject_Z 4294967296). rewrite <- Zle_Qle. lia. }
    assert (HwQ : 1 <= inject_Z min_wait_frames).
    { change 1 with (inject_Z 1). rewrite <- Zle_Qle. lia. }
    rewrite inject_Z_mult. change (inject_Z 256) with 256. lra.
Qed.

(** X2.  With [min_wait_frames > 0] and a sample rate that fits 32 bits, as
    aubio's does, the number of returned onsets is bounded by the window and
    the gap: [(count - 1) * g <= 14.9] for the exact quotient
    [g = min_wait_frames * 256 / samplerate], rounding notwithstanding. *)
Theorem filter_chain_count_bound {R : Rounding}
    (samplerate min_wait_frames : Z) (raw out : list Q) :
  (0 < samplerate)%Z ->
  (samplerate < 2 ^ 32)%Z ->
  (0 < min_wait_frames)%Z ->
  filter_chain samplerate min_wait_frames raw = Ok out ->
  (inject_Z (Z.of_nat (List.length out)) - 1)
  * (inject_Z (min_wait_frames * 256) / inject_Z samplerate) <= 149 # 10.
Proof.
  intros Hsr Hbound Hw Hout.
  fold (gap_quotient samplerate min_wait_frames).
  pose proof (gap_quotient_lower _ _ Hsr Hbound Hw) as Hqlo.
  set (q := gap_quotient samplerate min_wait_frames) in *.
  destruct (Qlt_le_dec double_max (Qabs (rnd q))) as [Hinf|Hfin].
  { rewrite filter_chain_overflow in Hout by (try assumption; lia).
    discriminate. }
  rewrite filter_chain_positive_rate in Hout by (try assumption; lia).
  fold q in Hout. injection Hout as Hout.
  assert (Hg : 0 < rnd q).
  { apply Qlt_le_trans with (rnd (1 # 16777216)); [|apply rnd_mono; exact Hqlo].
    pose proof double_min_small as Hs. pose proof double_min_pos as Hp.
    pose proof double_max_large as Hl.
    destruct (rnd_bounds (1 # 16777216)) as [Hb _];
      unfold unit_roundoff in *; lra. }
  pose proof (chain_output_separated (rnd q) raw Hg) as Hgap.
  pose proof (filter_Forall_in_window (scan_from (rnd q) (- rnd q) raw)) as Hwin.
  rewrite Hout in Hgap, Hwin. apply StronglySorted_Sorted in Hgap.
  destruct out as [|a l].
  { cbn [List.length Z.of_nat]. change (inject_Z 0) with 0.
    assert (E : (0 - 1) * q == - q) by ring. rewrite E. lra. }
  assert (En : inject_Z (Z.of_nat (List.length (a :: l))) - 1
               == inject_Z (Z.of_nat (List.length l))).
  { change (List.length (a :: l)) with (S (List.length l)).
    rewrite Nat2Z.inj_succ. unfold Z.succ. rewrite inject_Z_plus.
    change (inject_Z 1) with 1. ring. }
  rewrite En.
  destruct (Qlt_le_dec 16 q) as [Hbig|Hsmall].
  - (* a gap above 16 s leaves room for one onset only *)
    destruct l as [|b l]; [simpl; rewrite Qmult_0_l; discriminate|].
    exfalso.
    inversion Hgap as [|? ? _ Hhd]; subst.
    inversion Hhd as [|? ? Hab]; subst. unfold gap_ge in Hab.
    inversion Hwin as [|? ? [Halo _] Hwin']; subst.
    inversion Hwin' as [|? ? [_ Hbhi] _]; subst.
    assert (H16 : 16 <= rnd q).
    { rewrite <- (rnd_int 16) by (simpl; lia).
      apply rnd_mono. change (inject_Z 16) with 16. lra. }
    assert (H15 : rnd (b - a) <= 15).
    { rewrite <- (rnd_int 15) by (simpl; lia).
      apply rnd_mono. change (inject_Z 15) with 15. lra. }
    lra.
  - pose proof (separated_apart q (a :: l) Hqlo Hsmall Hwin Hgap) as Hapart.
    assert (Hspan : a + inject_Z (Z.of_nat (List.length l)) * (q * slack)
                    <= 15 # 1).
    { apply apart_span; [exact Hapart|].
      eapply Forall_impl; [|exact Hwin]. intros t [_ Ht]. exact Ht. }
    inversion Hwin as [|? ? [Ha _] _]; subst.
    apply discrete_bound; [exact Hsr | exact Hbound |].
    unfold q, gap_quotient in Hspan.
    set (n := inject_Z (Z.of_nat (List.length l))) in *.
    set (x := inject_Z (min_wait_frames * 256) / inject_Z samplerate) in *.
    assert (E : n * (x * slack) == n * x * slack) by ring.
    rewrite E in Hspan. set (p := n * x * slack) in *. lra.
Qed.

Lemma filter_chain_count_bound_witness :
  (inject_Z (Z.of_nat (List.length [1; 2])) - 1)
  * (inject_Z (30 * 256) / inject_Z 44100) <= 149 # 10.
Proof.
  apply (filter_chain_count_bound (R := binary64) 44100 30
           [5 # 100; 1; 11 # 10; 2; 16] [1; 2]).
  - lia.
  - reflexivity.
  - lia.
  - reflexivity.
Defined.

Lemma last_cons {A : Type} (a d : A) (l : list A) :
  last (a :: l) d = last l a.
Proof.
  revert a d. induction l as [|b l IH]; intros a d; [reflexivity|].
  change (last (a :: b :: l) d) with (last (b :: l) d).
  rewrite (IH b d), (IH b a). reflexivity.
Qed.

(** The scan of a list and what follows it: the second part is scanned from
    the last onset kept in the first. *)
Lemma scan_from_app {R : Rounding} (g : Q) (l1 l2 : list Q) :
  forall last_kept,
    scan_from g last_kept (l1 ++ l2)
    = scan_from g last_kept l1
      ++ scan_from g (last (scan_from g last_kept l1) last_kept) l2.
Proof.
  induction l1 as [|t l1 IH]; intro last_kept; [reflexivity|].
  cbn [app scan_from].
  destruct (Qle_bool g (rnd (t - last_kept))).
  - rewrite last_cons, IH. reflexivity.
  - apply IH.
Qed.

(** X3.  Refractory suppression drops nothing without cause.  Take any onset
    [t] of a list of non-negative times, with the onsets before it and
    after it: either [t] is returned, right after what the stage returns
    for the onsets before it; or it is dropped, and then an onset [k] that
    the stage returns from among those before [t] has a float difference
    [t - k] below the gap. *)
Theorem refractory_drops_only_close_onsets {R : Rounding}
    (samplerate min_wait_frames : Z) (before : list Q) (t : Q)
    (after : list Q) :
  (0 < min_wait_frames)%Z ->
  (0 < samplerate)%Z ->
  gap_quotient samplerate min_wait_frames <= double_max ->
  Forall (Qle 0) (before ++ t :: after) ->
  let g := rnd (gap_quotient samplerate min_wait_frames) in
  exists kept_before rest,
    refractory_stage samplerate min_wait_frames before = Ok kept_before
    /\ (refractory_stage samplerate min_wait_frames (before ++ t :: after)
        = Ok (kept_before ++ t :: rest)
        \/ (refractory_stage samplerate min_wait_frames (before ++ t :: after)
            = Ok (kept_before ++ rest)
            /\ exists k, In k kept_before /\ rnd (t - k) < g)).
Proof.
  intros Hw Hsr Hmax Hpos g.
  assert (Hq : 0 <= gap_quotient samplerate min_wait_frames)
    by (apply gap_quotient_nonneg; lia).
  assert (Hfin : Qabs g <= double_max).
  { unfold g. rewrite Qabs_pos by (apply rnd_nonneg; exact Hq).
    apply rnd_mono in Hmax. rewrite rnd_max in Hmax. exact Hmax. }
  assert (Hsr' : samplerate <> 0%Z) by lia.
  rewrite !(refractory_stage_runs samplerate min_wait_frames _ Hw Hsr' Hfin).
  fold (gap_quotient samplerate min_wait_frames). fold g.
  rewrite scan_from_app. cbn [scan_from].
  set (kept := scan_from g (- g) before).
  exists kept.
  case_Qle g (rnd (t - last kept (- g))).
  - eexists. split; [reflexivity|]. left. reflexivity.
  - eexists. split; [reflexivity|]. right. split; [reflexivity|].
    exists (last kept (- g)). split; [|exact E].
    destruct kept as [|k0 kept'] eqn:Ek.
    + exfalso. simpl in E.
      apply Forall_app in Hpos. destruct Hpos as [_ Hpos].
      inversion Hpos as [|? ? Ht _]; subst.
      pose proof (first_passes g t (rnd_idem _) Ht). lra.
    + destruct (exists_last (l := k0 :: kept')) as (l' & x & Hx); [discriminate|].
      rewrite Hx, last_last. apply in_or_app. right. left. reflexivity.
Qed.

Lemma refractory_drops_only_close_onsets_witness :
  exists kept_before rest,
    refractory_stage 32768 32 [1 # 8] = Ok kept_before
    /\ (refractory_stage 32768 32 ([1 # 8] ++ (1 # 4) :: [1 # 2; 3 # 4])
        = Ok (kept_before ++ (1 # 4) :: rest)
        \/ (refractory_stage 32768 32 ([1 # 8] ++ (1 # 4) :: [1 # 2; 3 # 4])
            = Ok (kept_before ++ rest)
            /\ exists k,
                 In k kept_before
                 /\ rnd ((1 # 4) - k) < rnd (gap_quotient 32768 32))).
Proof.
  apply (refractory_drops_only_close_onsets (R := binary64) 32768 32
           [1 # 8] (1 # 4) [1 # 2; 3 # 4]).
  - lia.
  - lia.
  - discriminate.
  - repeat constructor; discriminate.
Defined.

Lemma scan_from_separated_id {R : Rounding} (g : Q) (l : list Q) :
  forall last,
    HdRel (gap_ge g) last l -> separated g l -> scan_from g last l = l.
Proof.
  induction l as [|x l IH]; intros last Hhd Hs; simpl.
  - reflexivity.
  - inversion Hhd as [|? ? Hgap]; subst. unfold gap_ge in Hgap.
    apply Qle_bool_iff in Hgap. rewrite Hgap.
    inversion Hs; subst. f_equal. apply IH; assumption.
Qed.

(** X4.  Raw onsets that already respect the gap pass the refractory stage
    untouched: when the sample rate is positive, the gap quotient does not
    overflow, the times are non-negative and the float difference of
    neighbours is at least the gap the code computes, the stage returns
    its input. *)
Theorem refractory_keeps_separated_input {R : Rounding}
    (samplerate min_wait_frames : Z) (raw : list Q) :
  (0 < samplerate)%Z ->
  gap_quotient samplerate min_wait_frames <= double_max ->
  Forall (Qle 0) raw ->
  separated (rnd (gap_quotient samplerate min_wait_frames)) raw ->
  refractory_stage samplerate min_wait_frames raw = Ok raw.
Proof.
  intros Hsr Hmax Hpos Hs.
  destruct (Z.lt_ge_cases 0 min_wait_frames) as [Hw|Hw].
  - assert (Hq : 0 <= gap_quotient samplerate min_wait_frames)
      by (apply gap_quotient_nonneg; lia).
    set (g := rnd (gap_quotient samplerate min_wait_frames)) in *.
    assert (Hfin : Qabs g <= double_max).
    { unfold g. rewrite Qabs_pos by (apply rnd_nonneg; exact Hq).
      apply rnd_mono in Hmax. rewrite rnd_max in Hmax. exact Hmax. }
    rewrite refractory_stage_runs by (try assumption; lia).
    fold (gap_quotient samplerate min_wait_frames). fold g.
    f_equal. apply scan_from_separated_id; [|exact Hs].
    destruct raw as [|x l]; constructor.
    inversion Hpos; subst. unfold gap_ge.
    apply first_passes; [apply rnd_idem | assumption].
  - unfold refractory_stage. apply Z.ltb_ge in Hw. rewrite Hw. reflexivity.
Qed.

Lemma refractory_keeps_separated_input_witness :
  refractory_stage 32768 32 [1 # 8; 3 # 8; 1] = Ok [1 # 8; 3 # 8; 1].
Proof.
  apply (refractory_keeps_separated_input (R := binary64) 32768 32
           [1 # 8; 3 # 8; 1]).
  - lia.
  - discriminate.
  - repeat constructor; discriminate.
  - repeat constructor; unfold gap_ge; vm_compute; discriminate.
Defined.

(** X5.  The policy table is monotone: expecting more notes never lowers the
    detection threshold. *)
Theorem select_config_threshold_monotone (n m : Z) :
  (n <= m)%Z ->
  threshold (select_config n) <= threshold (select_config m).
Proof.
  intro Hnm. unfold select_config.
  destruct (Z.leb_spec n 8), (Z.leb_spec n 16), (Z.leb_spec m 8),
    (Z.leb_spec m 16); simpl; try lia; try (vm_compute; discriminate).
Qed.

Lemma select_config_threshold_monotone_witness :
  threshold (select_config 8) <= threshold (select_config 17).
Proof.
  apply (select_config_threshold_monotone 8 17). lia.
Defined.

(** ** AubioOnset.py: the acquisition loop *)

Import AubioRun.

Lemma fed_before_S (blocks : nat -> list Q * Z) (k : nat) :
  fed_before blocks (S k) = fed_before blocks k ++ [fst (blocks k)].
Proof. unfold fed_before. rewrite seq_S, map_app. reflexivity. Qed.

Lemma detections_before_S (det : list (list Q) -> option Q)
    (blocks : nat -> list Q * Z) (k : nat) :
  detections_before det blocks (S k)
  = detections_before det blocks k
    ++ match det (fed_before blocks (S k)) with
       | Some t => [t]
       | None => []
       end.
Proof.
  unfold detections_before. rewrite seq_S, flat_map_app. simpl.
  rewrite app_nil_r. reflexivity.
Qed.

Lemma frames_before_S (blocks : nat -> list Q * Z) (k : nat) :
  frames_before blocks (S k) = (frames_before blocks k + snd (blocks k))%Z.
Proof.
  unfold frames_before. rewrite seq_S, map_app. simpl.
  generalize (map (fun j => snd (blocks j)) (seq 0 k)) as l.
  induction l as [|x l IH]; simpl; [lia | rewrite IH; lia].
Qed.

Section Acquisition.

Variable s : nat -> result (list Q * Z).
Variable o : list (list Q) -> result (option Q).
Variable blocks : nat -> list Q * Z.
Variable det : list (list Q) -> option Q.
Variable n : nat.

Hypothesis reads : forall k, (k <= n)%nat -> s k = Ok (blocks k).
Hypothesis detects :
  forall k, (k <= n)%nat ->
    o (fed_before blocks (S k)) = Ok (det (fed_before blocks (S k))).
Hypothesis full : forall k, (k < n)%nat -> (HOP_S <= snd (blocks k))%Z.
Hypothesis short : (snd (blocks n) < HOP_S)%Z.

Lemma acquire_from (fuel : nat) :
  forall k,
    (k <= n)%nat -> (n - k < fuel)%nat ->
    acquire fuel s o k (fed_before blocks k) (detections_before det blocks k)
      (frames_before blocks k)
    = Some (Ok (detections_before det blocks (S n), frames_before blocks (S n))).
Proof.
  induction fuel as [|fuel IH]; intros k Hk Hfuel; [lia|].
  cbn [acquire]. rewrite (reads k Hk).
  destruct (blocks k) as [samples read] eqn:Eb.
  assert (Hfed : fed_before blocks k ++ [samples] = fed_before blocks (S k)).
  { rewrite fed_before_S, Eb. reflexivity. }
  rewrite Hfed, (detects k Hk).
  assert (Hons :
    match det (fed_before blocks (S k)) with
    | Some onset_time => detections_before det blocks k ++ [onset_time]
    | None => detections_before det blocks k
    end = detections_before det blocks (S k)).
  { rewrite detections_before_S.
    destruct (det (fed_before blocks (S k))); [|rewrite app_nil_r]; reflexivity. }
  assert (Hfr : (frames_before blocks k + read)%Z = frames_before blocks (S k)).
  { rewrite frames_before_S, Eb. reflexivity. }
  cbv zeta. rewrite Hons, Hfr.
  destruct (Nat.eq_dec k n) as [->|Hne].
  - rewrite Eb in short. simpl in short.
    apply Z.ltb_lt in short. rewrite short. reflexivity.
  - assert (Hlt : (k < n)%nat) by lia.
    pose proof (full k Hlt) as Hfull. rewrite Eb in Hfull. simpl in Hfull.
    apply Z.ltb_ge in Hfull. rewrite Hfull.
    apply IH; lia.
Qed.

End Acquisition.

(** X6.  The acquisition loop stops at the first block shorter than a hop,
    and not before: when the first [n] blocks are full and block [n] is
    short, any fuel above [n] returns the onsets the detector reported on
    the blocks [0..n], the short one included, in order, together with the
    total of the frames read. *)
Theorem acquire_stops_at_short_block
    (s : nat -> result (list Q * Z)) (o : list (list Q) -> result (option Q))
    (blocks : nat -> list Q * Z) (det : list (list Q) -> option Q)
    (n fuel : nat) :
  (forall k, (k <= n)%nat -> s k = Ok (blocks k)) ->
  (forall k, (k <= n)%nat ->
     o (fed_before blocks (S k)) = Ok (det (fed_before blocks (S k)))) ->
  (forall k, (k < n)%nat -> (HOP_S <= snd (blocks k))%Z) ->
  (snd (blocks n) < HOP_S)%Z ->
  (n < fuel)%nat ->
  acquire fuel s o 0 [] [] 0
  = Some (Ok (detections_before det blocks (S n), frames_before blocks (S n))).
Proof.
  intros Hs Ho Hfull Hshort Hfuel.
  apply (acquire_from s o blocks det n Hs Ho Hfull Hshort fuel 0%nat); lia.
Qed.

(** X7.  On a source that never returns a short block the loop never ends:
    whatever the fuel, it is still running. *)
Theorem acquire_runs_on_full_blocks
    (s : nat -> result (list Q * Z)) (o : list (list Q) -> result (option Q))
    (fuel : nat) :
  (forall k, exists samples read,
      s k = Ok (samples, read) /\ (HOP_S <= read)%Z) ->
  (forall fed, exists d, o fed = Ok d) ->
  forall k fed onsets total_frames,
    acquire fuel s o k fed onsets total_frames = None.
Proof.
  intros Hs Ho.
  induction fuel as [|fuel IH]; intros k fed onsets total; [reflexivity|].
  cbn [acquire].
  destruct (Hs k) as (samples & read & -> & Hread).
  destruct (Ho (fed ++ [samples])) as [d ->].
  apply Z.ltb_ge in Hread. cbv zeta. rewrite Hread. apply IH.
Qed.

Lemma acquire_stops_at_short_block_witness :
  acquire 5 (fun k => Ok (example_blocks k)) (fun fed => Ok (example_detector fed))
    0 [] [] 0
  = Some (Ok ([1 # 2], 612%Z)).
Proof.
  apply (acquire_stops_at_short_block
           (fun k => Ok (example_blocks k)) (fun fed => Ok (example_detector fed))
           example_blocks example_detector 2 5).
  - intros k _. reflexivity.
  - intros k _. reflexivity.
  - intros k Hk. destruct k as [|[|k]]; simpl; [discriminate | discriminate | lia].
  - reflexivity.
  - lia.
Defined.

Lemma acquire_runs_on_full_blocks_witness :
  acquire 10 (fun _ => Ok ([], 256%Z)) (fun _ => Ok None) 0 [] [] 0 = None.
Proof.
  apply (acquire_runs_on_full_blocks (fun _ => Ok ([], 256%Z)) (fun _ => Ok None) 10).
  - intro k. exists [], 256%Z. split; [reflexivity | discriminate].
  - intro fed. exists None. reflexivity.
Defined.

(** ** AubioOnset.py: the whole function *)

Lemma filter_chain_subseq_window {R : Rounding}
    (samplerate min_wait_frames : Z) (raw out : list Q) :
  filter_chain samplerate min_wait_frames raw = Ok out ->
  subseq out raw /\ Forall (fun t => 1 # 10 <= t /\ t <= 15 # 1) out.
Proof.
  intro H.
  destruct (Z.lt_ge_cases 0 min_wait_frames) as [Hw|Hw].
  - destruct (Z.eq_dec samplerate 0) as [->|Hsr].
    + rewrite filter_chain_zero_rate in H by assumption. discriminate.
    + destruct (Qlt_le_dec double_max
                  (Qabs (rnd (gap_quotient samplerate min_wait_frames))))
        as [Hinf|Hfin].
      { rewrite filter_chain_overflow in H by assumption. discriminate. }
      rewrite filter_chain_positive_rate in H by assumption.
      injection H as <-. split; [|apply filter_Forall_in_window].
      eapply subseq_trans; [apply subseq_filter | apply scan_from_subseq].
  - rewrite filter_chain_no_wait in H by assumption.
    injection H as <-. split; [apply subseq_filter | apply filter_Forall_in_window].
Qed.

(** X8.  [detect_onsets_aubio] invents nothing: whenever it returns, for any
    configuration, each returned onset was reported by the detector during
    acquisition, in the same order, and lies in [0.1, 15.0]. *)
Theorem detect_onsets_aubio_reported {R : Rounding} (fuel : nat) (w : World)
    (filename : string) (expected_notes min_wait_frames samplerate : Z)
    (s : nat -> result (list Q * Z)) (o : list (list Q) -> result (option Q))
    (blocks : nat -> list Q * Z) (det : list (list Q) -> option Q) (n : nat)
    (out : list Q) :
  source w filename HOP_S = Ok (samplerate, s) ->
  onset w (onset_method (select_config expected_notes)) WIN_S HOP_S samplerate
    (threshold (select_config expected_notes)) = Ok o ->
  (forall k, (k <= n)%nat -> s k = Ok (blocks k)) ->
  (forall k, (k <= n)%nat ->
     o (fed_before blocks (S k)) = Ok (det (fed_before blocks (S k)))) ->
  (forall k, (k < n)%nat -> (HOP_S <= snd (blocks k))%Z) ->
  (snd (blocks n) < HOP_S)%Z ->
  (n < fuel)%nat ->
  detect_onsets_aubio fuel w filename expected_notes min_wait_frames
  = Some (Ok out) ->
  subseq out (detections_before det blocks (S n))
  /\ Forall (fun t => 1 # 10 <= t /\ t <= 15 # 1) out.
Proof.
  intros Hsrc Hons Hs Ho Hfull Hshort Hfuel Hout.
  unfold detect_onsets_aubio in Hout. rewrite Hsrc, Hons in Hout.
  assert (Hacq : acquire fuel s o 0 [] [] 0
                 = Some (Ok (detections_before det blocks (S n),
                             frames_before blocks (S n)))).
  { apply (acquire_from s o blocks det n Hs Ho Hfull Hshort fuel 0%nat); lia. }
  rewrite Hacq in Hout.
  injection Hout as Hout.
  apply filter_chain_subseq_window in Hout. exact Hout.
Qed.

Lemma detect_onsets_aubio_reported_witness :
  subseq [1 # 2] (detections_before example_detector example_blocks 3)
  /\ Forall (fun t => 1 # 10 <= t /\ t <= 15 # 1) [1 # 2].
Proof.
  apply (detect_onsets_aubio_reported (R := binary64) 5 example_aubio
           "./results.wav" 14 30 44100
           (fun k => Ok (example_blocks k)) (fun fed => Ok (example_detector fed))
           example_blocks example_detector 2 [1 # 2]).
  - reflexivity.
  - reflexivity.
  - intros k _. reflexivity.
  - intros k _. reflexivity.
  - intros k Hk. destruct k as [|[|k]]; simpl; [discriminate | discriminate | lia].
  - reflexivity.
  - lia.
  - reflexivity.
Defined.

(** ** AubioOnset.py: the beat map *)

Lemma count_char_app (c : Ascii.ascii) (s1 s2 : string) :
  count_char c (s1 ++ s2) = (count_char c s1 + count_char c s2)%nat.
Proof.
  induction s1 as [|c' s1 IH]; simpl; [reflexivity|].
  rewrite IH. lia.
Qed.

(** X10.  The beat map has one line per onset and no trailing newline: as
    the formatted times contain no newline, the text holds one newline fewer
    than there are onsets, and none for zero or one onset. *)
Theorem beatmap_text_lines (w : World) (onset_times : list Q) :
  (forall t, count_char (Ascii.ascii_of_nat 10) (format_4f w t) = 0%nat) ->
  count_char (Ascii.ascii_of_nat 10) (beatmap_text w onset_times)
  = pred (List.length onset_times).
Proof.
  intro Hfmt. unfold beatmap_text.
  induction onset_times as [|t l IH]; [reflexivity|].
  destruct l as [|t' l].
  - simpl. apply Hfmt.
  - change (String.concat newline (map (format_4f w) (t :: t' :: l)))
      with (format_4f w t ++ newline
            ++ String.concat newline (map (format_4f w) (t' :: l)))%string.
    rewrite !count_char_app, Hfmt, IH. reflexivity.
Qed.

Lemma beatmap_text_lines_witness :
  count_char (Ascii.ascii_of_nat 10)
    (beatmap_text example_aubio [1 # 2; 1; 2])
  = pred (List.length [1 # 2; 1; 2]).
Proof.
  apply (beatmap_text_lines example_aubio [1 # 2; 1; 2]).
  intro t. reflexivity.
Defined.

(** * Further properties of librosa_onset_detection.py *)

Import LibrosaOnset.

(** A beat less than 0.2 s away is enough, whichever beat is nearest. *)
Lemma keeps_of_close_beat {R : Rounding} (beats : list Q) (onset b : Q) :
  In b beats -> Qabs (rnd (b - onset)) < 2 # 10 -> keeps beats onset = true.
Proof.
  intros Hb Hlt.
  assert (Hne : beats <> []) by (intros ->; contradiction).
  apply (keeps_iff beats onset Hne).
  destruct (py_min_key_nearest (fun x => Qabs (rnd (x - onset))) beats Hne)
    as (c & _ & Hc & Hmin).
  exists c. split; [exact Hc|]. split; [exact Hmin|].
  apply Qle_lt_trans with (Qabs (rnd (b - onset)));
    [apply Hmin; exact Hb | exact Hlt].
Qed.

Lemma keeps_close_beat {R : Rounding} (beats : list Q) (onset : Q) :
  keeps beats onset = true ->
  exists b, In b beats /\ Qabs (rnd (b - onset)) < 2 # 10.
Proof.
  destruct beats as [|b0 bs]; [discriminate|]. intro H.
  apply keeps_iff in H; [|discriminate].
  destruct H as (c & Hc & _ & Hlt). exists c. auto.
Qed.

(** X11.  The beat-proximity test keeps an onset exactly when, for some
    detected beat, the distance the code computes, [abs(beat - onset)] with
    its float difference, is below 0.2: testing the nearest beat is testing
    them all.  With no beat at all it keeps none. *)
Theorem keeps_iff_some_beat {R : Rounding} (beats : list Q) (onset : Q) :
  keeps beats onset = true
  <-> exists b, In b beats /\ Qabs (rnd (b - onset)) < 2 # 10.
Proof.
  split.
  - apply keeps_close_beat.
  - intros (b & Hb & Hlt). apply (keeps_of_close_beat beats onset b Hb Hlt).
Qed.

(** X12.  More beats never cost an onset: an onset that passes the test
    against a beat list passes it against any list containing those beats. *)
Theorem keeps_monotone {R : Rounding} (beats beats' : list Q) (onset : Q) :
  incl beats beats' ->
  keeps beats onset = true ->
  keeps beats' onset = true.
Proof.
  intros Hincl H. apply keeps_close_beat in H.
  destruct H as (b & Hb & Hlt).
  apply (keeps_of_close_beat beats' onset b); [apply Hincl; exact Hb | exact Hlt].
Qed.

Lemma keeps_monotone_witness :
  keeps [100; 11 # 10; 7] 1 = true.
Proof.
  apply (keeps_monotone (R := binary64) [11 # 10] [100; 11 # 10; 7] 1).
  - intros b [<-|[]]. right. left. reflexivity.
  - vm_compute. reflexivity.
Defined.

Lemma filter_idem {A : Type} (p : A -> bool) (l : list A) :
  filter p (filter p l) = filter p l.
Proof.
  induction l as [|x l IH]; simpl; [reflexivity|].
  destruct (p x) eqn:E; simpl; [rewrite E, IH|]; auto.
Qed.

(** X13.  When the beat-proximity stage returns, what it returns is a
    subsequence of the onsets it was given, holds at least 30% of them, and
    is therefore non-empty whenever there was an onset. *)
Theorem beat_proximity_result {R : Rounding} (onsets beats : list Q) (out : pyseq) :
  beats <> [] ->
  beat_proximity (PyList onsets) (NdArray beats) = Ok out ->
  subseq (items out) onsets
  /\ inject_Z (Z.of_nat (List.length onsets)) * (3 # 10)
     <= inject_Z (Z.of_nat (List.length (items out)))
  /\ (onsets <> [] -> items out <> []).
Proof.
  intros Hne H. rewrite beat_proximity_cases in H by exact Hne.
  destruct (Qltb _ _) eqn:E; [discriminate|].
  injection H as <-. apply Qltb_false_iff in E. simpl.
  split; [apply subseq_filter|]. split; [exact E|].
  intros Hons Hempty. rewrite Hempty in E. simpl in E.
  destruct onsets as [|o os]; [congruence|].
  change (List.length (o :: os)) with (S (List.length os)) in E.
  rewrite Nat2Z.inj_succ in E. unfold Z.succ in E.
  rewrite inject_Z_plus in E. change (inject_Z 1) with 1 in E.
  change (inject_Z 0) with 0 in E.
  assert (Hlen : 0 <= inject_Z (Z.of_nat (List.length os))).
  { change 0 with (inject_Z 0). rewrite <- Zle_Qle. lia. }
  lra.
Qed.

Lemma beat_proximity_result_witness :
  subseq (items (PyList [1; 2; 5])) [1; 2; 3; 4; 5]
  /\ inject_Z (Z.of_nat (List.length [1; 2; 3; 4; 5])) * (3 # 10)
     <= inject_Z (Z.of_nat (List.length (items (PyList [1; 2; 5]))))
  /\ ([1; 2; 3; 4; 5] <> [] -> items (PyList [1; 2; 5]) <> []).
Proof.
  apply (beat_proximity_result (R := binary64)
           [1; 2; 3; 4; 5] [11 # 10; 21 # 10; 51 # 10]
           (PyList [1; 2; 5])).
  - discriminate.
  - vm_compute. reflexivity.
Defined.

(** X14.  The stage is idempotent on what it returns: filtering its own
    output against the same beats gives that output back. *)
Theorem beat_proximity_idempotent {R : Rounding} (onsets beats : list Q) (out : pyseq) :
  beats <> [] ->
  beat_proximity (PyList onsets) (NdArray beats) = Ok out ->
  beat_proximity out (NdArray beats) = Ok out.
Proof.
  intros Hne H.
  destruct (beat_proximity_kept onsets beats out Hne H) as [-> _].
  rewrite beat_proximity_cases by exact Hne.
  rewrite filter_idem.
  set (n := inject_Z (Z.of_nat (List.length (filter (keeps beats) onsets)))).
  assert (Hn : 0 <= n).
  { unfold n. change 0 with (inject_Z 0). rewrite <- Zle_Qle. lia. }
  assert (E : Qltb n (n * (3 # 10)) = false) by (apply Qltb_false_iff; lra).
  rewrite E. reflexivity.
Qed.

Lemma beat_proximity_idempotent_witness :
  beat_proximity (PyList [1; 2; 5]) (NdArray [11 # 10; 21 # 10; 51 # 10])
  = Ok (PyList [1; 2; 5]).
Proof.
  apply (beat_proximity_idempotent (R := binary64)
           [1; 2; 3; 4; 5] [11 # 10; 21 # 10; 51 # 10]
           (PyList [1; 2; 5])).
  - discriminate.
  - vm_compute. reflexivity.
Defined.

(** ** librosa_onset_detection.py: the energy filter *)

Lemma Qmaxb_gt (min_linear a b : Q) :
  Qltb min_linear (Qmaxb a b) = Qltb min_linear a || Qltb min_linear b.
Proof.
  unfold Qmaxb. case_Qle a b.
  - destruct (Qltb min_linear a) eqn:Ha; [|reflexivity].
    apply Qltb_iff in Ha. simpl. apply Qltb_iff. lra.
  - destruct (Qltb min_linear b) eqn:Hb; [|rewrite orb_false_r; reflexivity].
    apply Qltb_iff in Hb. rewrite orb_true_r. apply Qltb_iff. lra.
Qed.

Lemma fold_Qmaxb_gt (min_linear : Q) (xs : list Q) :
  forall x,
    Qltb min_linear (fold_left Qmaxb xs x)
    = Qltb min_linear x || existsb (Qltb min_linear) xs.
Proof.
  induction xs as [|a xs IH]; intro x; simpl.
  - rewrite orb_false_r. reflexivity.
  - rewrite IH, Qmaxb_gt, orb_assoc. reflexivity.
Qed.

Lemma existsb_map {A B : Type} (f : A -> B) (p : B -> bool) (l : list A) :
  existsb p (map f l) = existsb (fun x => p (f x)) l.
Proof.
  induction l as [|x l IH]; simpl; [reflexivity | rewrite IH; reflexivity].
Qed.

(** The test of line 151 on one time: an empty window raises, otherwise the
    answer is whether some sample of the window is loud. *)
Lemma loud_enough_cases {R : Rounding} (y : list Q) (sr : Z) (min_linear t : Q) :
  loud_enough y sr min_linear t
  = if nonempty (window y sr t) then Ok (loud y sr min_linear t)
    else Raise zero_size.
Proof.
  unfold loud_enough, loud. fold (window y sr t).
  destruct (window y sr t) as [|x xs]; [reflexivity|].
  cbn [map np_max bind nonempty].
  rewrite fold_Qmaxb_gt, existsb_map. reflexivity.
Qed.

Lemma comprehension_loud_cases {R : Rounding} (y : list Q) (sr : Z) (min_linear : Q)
    (l : list Q) :
  comprehension (loud_enough y sr min_linear) l
  = if forallb (fun t => nonempty (window y sr t)) l
    then Ok (filter (loud y sr min_linear) l)
    else Raise zero_size.
Proof.
  induction l as [|t l IH]; [reflexivity|].
  cbn [comprehension forallb filter].
  rewrite loud_enough_cases, IH.
  destruct (nonempty (window y sr t)); [|reflexivity].
  destruct (forallb _ l); [|reflexivity].
  cbn [bind andb]. destruct (loud y sr min_linear t); reflexivity.
Qed.

(** X15.  The energy filter, completely: if the window of every time is
    non-empty it returns, as a Python list and in order, exactly the times
    whose 1024-sample window holds a sample louder than the threshold; if
    the window of any time, wherever in the sequence, is empty, it raises
    numpy's [ValueError] and returns nothing. *)
Theorem energy_filter_cases {R : Rounding} (y : list Q) (sr : Z) (min_linear : Q)
    (times : pyseq) :
  energy_filter y sr min_linear times
  = if forallb (fun t => nonempty (window y sr t)) (items times)
    then Ok (PyList (filter (loud y sr min_linear) (items times)))
    else Raise zero_size.
Proof.
  unfold energy_filter. rewrite comprehension_loud_cases.
  destruct (forallb _ _); reflexivity.
Qed.

Lemma slice_nonempty (y : list Q) (i : Z) :
  (0 <= i)%Z ->
  nonempty (py_slice y i (i + 1024)) = true <-> (i < Z.of_nat (List.length y))%Z.
Proof.
  intro Hi. unfold py_slice, slice_bound.
  set (n := Z.of_nat (List.length y)).
  assert (E1 : (i <? 0)%Z = false) by (apply Z.ltb_ge; lia).
  assert (E2 : (i + 1024 <? 0)%Z = false) by (apply Z.ltb_ge; lia).
  rewrite E1, E2.
  set (l := firstn (Z.to_nat (Z.min (i + 1024) n - Z.min i n))
              (skipn (Z.to_nat (Z.min i n)) y)).
  assert (Hlen : List.length l
                 = Nat.min (Z.to_nat (Z.min (i + 1024) n - Z.min i n))
                     (List.length y - Z.to_nat (Z.min i n))).
  { unfold l. rewrite length_firstn, length_skipn. reflexivity. }
  split.
  - intro Hne. destruct l as [|x l']; [discriminate|].
    simpl in Hlen. unfold n in *. lia.
  - intro Hlt. destruct l as [|x l']; [|reflexivity].
    simpl in Hlen. unfold n in *. lia.
Qed.

Lemma py_int_below (x : Q) (n : Z) :
  (1 <= n)%Z -> (n <= py_int x)%Z -> inject_Z n <= x.
Proof.
  unfold py_int. destruct x as [num den]. cbn [Qnum Qden]. intros Hn Hle.
  assert (Hnum : (0 <= num)%Z).
  { destruct (Z.lt_ge_cases num 0) as [Hneg|]; [|assumption].
    pose proof (Z.quot_opp_l (- num) (Z.pos den)) as Ho.
    rewrite Z.opp_involutive in Ho.
    pose proof (Z.quot_pos (- num) (Z.pos den)) as Hp. lia. }
  rewrite Z.quot_div_nonneg in Hle by lia.
  unfold Qle, inject_Z. cbn [Qnum Qden].
  pose proof (Z.mul_div_le num (Z.pos den)) as Hd. nia.
Qed.

Lemma py_int_above (x : Q) (n : Z) :
  (0 <= n)%Z -> inject_Z n <= x -> (n <= py_int x)%Z.
Proof.
  unfold py_int. destruct x as [num den]. intros Hn Hle.
  unfold Qle, inject_Z in Hle. cbn [Qnum Qden] in *.
  assert (Hnum : (0 <= num)%Z) by nia.
  rewrite Z.quot_div_nonneg by lia.
  apply Z.div_le_lower_bound; lia.
Qed.

Lemma slice_of_nil (a b : Z) : py_slice [] a b = [].
Proof. unfold py_slice. rewrite skipn_nil, firstn_nil. reflexivity. Qed.

(** X16.  One onset time at or past the end of the clip is enough to lose
    them all: on a clip of at most 2^53 samples, if [int] of the exact
    product [t * sr] is non-negative and not below the number of samples,
    for any [t] in the sequence, then so is the index the code computes from
    the float product, and the energy filter raises [ValueError]. *)
Theorem energy_filter_past_end {R : Rounding} (y : list Q) (sr : Z)
    (min_linear : Q) (times : pyseq) (t : Q) :
  (Z.of_nat (List.length y) <= 2 ^ 53)%Z ->
  In t (items times) ->
  (0 <= py_int (t * inject_Z sr))%Z ->
  (Z.of_nat (List.length y) <= py_int (t * inject_Z sr))%Z ->
  energy_filter y sr min_linear times = Raise zero_size.
Proof.
  intros Hsize Hin Hpos Hend. unfold energy_filter.
  rewrite comprehension_loud_cases.
  destruct (forallb _ _) eqn:E; [|reflexivity].
  rewrite forallb_forall in E. specialize (E t Hin).
  unfold window in E.
  destruct y as [|s0 y'].
  { rewrite slice_of_nil in E. discriminate. }
  set (n := Z.of_nat (List.length (s0 :: y'))) in *.
  assert (Hn : (1 <= n)%Z) by (unfold n; simpl; lia).
  assert (Hx : inject_Z n <= t * inject_Z sr) by (apply py_int_below; assumption).
  apply rnd_mono in Hx. rewrite rnd_int in Hx by lia.
  pose proof (py_int_above _ n ltac:(lia) Hx) as Hidx.
  apply slice_nonempty in E; [fold n in E; lia | lia].
Qed.

Lemma energy_filter_past_end_witness :
  energy_filter [1; 1; 1; 1] 2 (1 # 1000) (NdArray [0; 1; 2])
  = Raise zero_size.
Proof.
  apply (energy_filter_past_end (R := binary64) [1; 1; 1; 1] 2 (1 # 1000)
           (NdArray [0; 1; 2]) 2).
  - vm_compute. discriminate.
  - simpl. auto.
  - vm_compute. discriminate.
  - vm_compute. discriminate.
Defined.

(** X17.  Conversely the filter cannot fail on times inside the clip: when
    the index [int(t * sr)] the code computes, from the float product, is a
    valid one for every time, it returns the loud ones, a subsequence of its
    input. *)
Theorem energy_filter_inside {R : Rounding} (y : list Q) (sr : Z) (min_linear : Q)
    (times : pyseq) :
  (forall t, In t (items times) ->
     (0 <= py_int (rnd (t * inject_Z sr)) < Z.of_nat (List.length y))%Z) ->
  energy_filter y sr min_linear times
  = Ok (PyList (filter (loud y sr min_linear) (items times)))
  /\ subseq (filter (loud y sr min_linear) (items times)) (items times).
Proof.
  intro Hin. split; [|apply subseq_filter].
  unfold energy_filter. rewrite comprehension_loud_cases.
  assert (E : forallb (fun t => nonempty (window y sr t)) (items times) = true).
  { apply forallb_forall. intros t Ht. unfold window.
    apply slice_nonempty; apply Hin; exact Ht. }
  rewrite E. reflexivity.
Qed.

Lemma energy_filter_inside_witness :
  energy_filter [1; 0; 1; 0] 2 (1 # 2) (NdArray [0; 1 # 2; 1])
  = Ok (PyList (filter (loud [1; 0; 1; 0] 2 (1 # 2)) [0; 1 # 2; 1]))
  /\ subseq (filter (loud [1; 0; 1; 0] 2 (1 # 2)) [0; 1 # 2; 1]) [0; 1 # 2; 1].
Proof.
  apply (energy_filter_inside (R := binary64) [1; 0; 1; 0] 2 (1 # 2)
           (NdArray [0; 1 # 2; 1])).
  intros t [<-|[<-|[<-|[]]]]; vm_compute; (split; [discriminate | reflexivity]).
Defined.

(** ** librosa_onset_detection.py: the two filters on doubles *)

(** The onset 0.05 is less than 0.2 s from the beat 0.25, but
    [abs(0.25 - 0.05)] is the double 0.2, which is not below the threshold:
    the onset is dropped.  The onset 0.3 is kept. *)
Example beat_at_rounded_distance :
  let onset := 3602879701896397 # 72057594037927936 in
  let later := 5404319552844595 # 18014398509481984 in
  Qabs ((1 # 4) - onset) < 2 # 10
  /\ keeps [1 # 4] onset = false
  /\ beat_proximity (PyList [onset; later]) (NdArray [1 # 4])
     = Ok (PyList [later]).
Proof. repeat split; vm_compute; reflexivity. Qed.

(** For [t] the double nearest 1/3 and [sr = 3] the product [t * sr] is
    below 1 and rounds to 1.0, so the window starts at sample 1: on a clip
    of one sample it is empty. *)
Example index_from_rounded_product :
  let t := 6004799503160661 # 18014398509481984 in
  py_int (t * inject_Z 3) = 0%Z
  /\ py_int (rnd (t * inject_Z 3)) = 1%Z
  /\ energy_filter [1] 3 (1 # 2) (NdArray [t]) = Raise zero_size.
Proof. repeat split; vm_compute; reflexivity. Qed.

(** ** librosa_onset_detection.py: the combined method and the entry point *)

(** X18.  When [detect_combined] returns, at least one beat was found and
    the result is, in order, exactly the detected onset times that are loud
    enough and less than 0.2 s from a beat: nothing is added, moved or
    changed. *)
Theorem detect_combined_returns {R : Rounding} (w : World) (y : list Q) (sr : Z)
    (min_linear : Q) (out : pyseq) :
  detect_combined w y sr min_linear = Ok out ->
  exists env frames tempo beat_frames times beat_times,
    onset_strength w y sr = Ok env
    /\ onset_detect w env sr (15 # 100) 8 = Ok frames
    /\ beat_track w env sr 80 = Ok (tempo, beat_frames)
    /\ frames_to_time w frames sr = Ok times
    /\ frames_to_time w beat_frames sr = Ok beat_times
    /\ beat_times <> []
    /\ out = PyList (filter (keeps beat_times)
                       (filter (loud y sr min_linear) times))
    /\ subseq (items out) times.
Proof.
  unfold detect_combined. intro H.
  apply bind_Ok in H. destruct H as (env & Henv & H).
  apply bind_Ok in H. destruct H as (frames & Hframes & H).
  apply bind_Ok in H. destruct H as ([tempo beat_frames] & Hbeats & H).
  apply bind_Ok in H. destruct H as (times & Htimes & H).
  apply bind_Ok in H. destruct H as (beat_times & Hbtimes & H).
  apply bind_Ok in H. destruct H as (filtered & Hfiltered & H).
  unfold energy_filter in Hfiltered.
  rewrite comprehension_loud_cases in Hfiltered.
  destruct (forallb _ _); [|discriminate].
  injection Hfiltered as <-. cbn [items] in H.
  exists env, frames, tempo, beat_frames, times, beat_times.
  repeat (split; [assumption|]).
  destruct beat_times as [|b bs]; [discriminate|].
  assert (Hne : b :: bs <> []) by discriminate.
  split; [exact Hne|].
  destruct (beat_proximity_kept _ _ _ Hne H) as [-> _].
  split; [reflexivity|]. cbn [items].
  eapply subseq_trans; apply subseq_filter.
Qed.

Lemma detect_combined_returns_witness :
  exists env frames tempo beat_frames times beat_times,
    onset_strength steady_world (repeat (1 # 2) 3000) 512 = Ok env
    /\ onset_detect steady_world env 512 (15 # 100) 8 = Ok frames
    /\ beat_track steady_world env 512 80 = Ok (tempo, beat_frames)
    /\ frames_to_time steady_world frames 512 = Ok times
    /\ frames_to_time steady_world beat_frames 512 = Ok beat_times
    /\ beat_times <> []
    /\ PyList [1; 2; 5]
       = PyList (filter (keeps beat_times)
                   (filter (loud (repeat (1 # 2) 3000) 512 (1 # 1000)) times))
    /\ subseq (items (PyList [1; 2; 5])) times.
Proof.
  apply (detect_combined_returns (R := binary64) steady_world
           (repeat (1 # 2) 3000) 512
           (1 # 1000) (PyList [1; 2; 5])).
  vm_compute. reflexivity.
Defined.

(** X19.  With no beat found the combined method does not fall back on the
    onsets: once the library calls and the energy filter have succeeded and
    the beat list is empty, line 171 raises [AttributeError]. *)
Theorem detect_combined_no_beats {R : Rounding} (w : World) (y : list Q) (sr : Z)
    (min_linear tempo : Q) (env frames beat_frames times : list Q)
    (kept : pyseq) :
  onset_strength w y sr = Ok env ->
  onset_detect w env sr (15 # 100) 8 = Ok frames ->
  beat_track w env sr 80 = Ok (tempo, beat_frames) ->
  frames_to_time w frames sr = Ok times ->
  frames_to_time w beat_frames sr = Ok [] ->
  energy_filter y sr min_linear (NdArray times) = Ok kept ->
  detect_combined w y sr min_linear = Raise no_tolist.
Proof.
  intros H1 H2 H3 H4 H5 H6. unfold detect_combined.
  rewrite H1. cbn [bind]. rewrite H2. cbn [bind]. rewrite H3. cbn [bind].
  rewrite H4. cbn [bind]. rewrite H5. cbn [bind]. rewrite H6. cbn [bind].
  apply energy_filter_list in H6. destruct H6 as [l ->]. reflexivity.
Qed.

Lemma detect_combined_no_beats_witness :
  detect_combined beatless_world (repeat (1 # 2) 3000) 512 (1 # 1000)
  = Raise no_tolist.
Proof.
  apply (detect_combined_no_beats (R := binary64) beatless_world
           (repeat (1 # 2) 3000) 512
           (1 # 1000) 0 [] [1; 2] [] [1; 2] (PyList [1; 2])).
  - reflexivity.
  - reflexivity.
  - reflexivity.
  - reflexivity.
  - reflexivity.
  - vm_compute. reflexivity.
Defined.

Lemma detect_body_trace {R : Rounding} (w : World) (file : string) (db : Q) (m : string) :
  fst (detect_body w file db m) = [Ev_load file].
Proof.
  unfold detect_body. cbn [emit io_bind].
  destruct (load w file) as [[y sr]|e]; cbn [lift io_bind]; [|reflexivity].
  destruct (pow10 w (db / 20)) as [min_linear|e]; [|reflexivity].
  destruct (String.eqb m "onset");
    [destruct (detect_onsets_only w y sr min_linear); reflexivity|].
  destruct (String.eqb m "beat");
    [destruct (detect_beats_only w y sr min_linear); reflexivity|].
  destruct (String.eqb m "combined");
    [destruct (detect_combined w y sr min_linear); reflexivity|].
  reflexivity.
Qed.

Lemma detect_onsets_librosa_loads {R : Rounding} (w : World) (file : string) (db : Q)
    (m : string) :
  loads_of (fst (detect_onsets_librosa w file db m)) = [file].
Proof.
  pose proof (detect_body_trace w file db m) as Htr.
  unfold detect_onsets_librosa.
  destruct (detect_body w file db m) as [tr [out|e]]; simpl in Htr; subst tr;
    reflexivity.
Qed.

(** X20.  [detect_onsets_librosa] is total and quiet in a fixed way: it
    never raises, always returns a Python list, reads the audio file exactly
    once, writes no document, and writes either nothing to standard error or
    one line, in which case the list it returns is empty. *)
Theorem detect_onsets_librosa_total {R : Rounding} (w : World) (file : string) (db : Q)
    (m : string) :
  exists tr l,
    detect_onsets_librosa w file db m = (tr, Ok (PyList l))
    /\ loads_of tr = [file]
    /\ emitted tr = []
    /\ (stderr_of tr = []
        \/ (l = []
            /\ exists e,
                 stderr_of tr
                 = [("Error processing " ++ file ++ ": " ++ exn_str e)%string])).
Proof.
  pose proof (detect_body_trace w file db m) as Htr.
  destruct (detect_body w file db m) as [tr [out|e]] eqn:E; simpl in Htr; subst tr.
  - destruct (detect_body_list _ _ _ _ _ _ E) as [l ->].
    exists [Ev_load file], l. unfold detect_onsets_librosa. rewrite E.
    repeat split. left. reflexivity.
  - eexists. exists []. split; [apply handler_runs; exact E|].
    repeat split. right. split; [reflexivity|]. exists e. reflexivity.
Qed.

Lemma detect_body_ok_combined {R : Rounding} (w : World) (file : string) (db : Q) (m : string)
    (tr : list event) (out : pyseq) :
  detect_body w file db m = (tr, Ok out) -> m = "combined"%string.
Proof.
  unfold detect_body. cbn [emit io_bind].
  destruct (load w file) as [[y sr]|e]; cbn [lift io_bind]; [|discriminate].
  destruct (pow10 w (db / 20)) as [min_linear|e]; [|discriminate].
  destruct (String.eqb m "onset").
  { destruct (detect_onsets_only_raises w y sr min_linear) as [e ->].
    discriminate. }
  destruct (String.eqb m "beat").
  { destruct (detect_beats_only_raises w y sr min_linear) as [e ->].
    discriminate. }
  destruct (String.eqb_spec m "combined"); [intros _; assumption | discriminate].
Qed.

(** X21.  Only the combined method can return onsets: for every other method
    name, known or not, and every input, the caller gets the empty list. *)
Theorem only_combined_returns_onsets {R : Rounding} (w : World) (file : string) (db : Q)
    (m : string) :
  m <> "combined"%string ->
  snd (detect_onsets_librosa w file db m) = Ok (PyList []).
Proof.
  intro Hm.
  destruct (detect_body w file db m) as [tr [out|e]] eqn:E.
  - apply detect_body_ok_combined in E. contradiction.
  - rewrite (handler_runs _ _ _ _ _ _ E). reflexivity.
Qed.

Lemma only_combined_returns_onsets_witness :
  snd (detect_onsets_librosa steady_world "take.wav" (- (50 # 1)) "beat")
  = Ok (PyList []).
Proof.
  apply (only_combined_returns_onsets steady_world "take.wav" (- (50 # 1)) "beat").
  discriminate.
Defined.

(** ** librosa_onset_detection.py: [main] *)

(** X22.  What each way of ending means.  [main] finishes normally exactly
    when the input exists and the output, if a file, can be opened, and has
    then emitted one document; it exits with status 1 exactly when the input
    is missing, before anything is loaded or written; the only exception it
    lets through is a failure to open the output file, after detection and
    with no document written.  A failed detection changes none of this. *)
Theorem main_outcome {R : Rounding} (w : World) (a : Args) :
  match main w a with
  | (tr, Finished) =>
      path_exists w (audio_file a) = true
      /\ (forall p, output_path a = Some p -> open_for_write w p = Ok tt)
      /\ List.length (emitted tr) = 1%nat
  | (tr, Exited code) =>
      code = 1%Z
      /\ path_exists w (audio_file a) = false
      /\ loads_of tr = [] /\ emitted tr = []
  | (tr, Uncaught e) =>
      path_exists w (audio_file a) = true
      /\ (exists p, output_path a = Some p /\ open_for_write w p = Raise e)
      /\ loads_of tr = [audio_file a] /\ emitted tr = []
  end.
Proof.
  destruct (path_exists w (audio_file a)) eqn:Hex.
  - destruct (detect_onsets_librosa_returns w (audio_file a) (min_db a) (method a))
      as (tr & l & Hdet).
    pose proof (detect_onsets_librosa_loads w (audio_file a) (min_db a) (method a))
      as Hloads.
    pose proof (detect_onsets_librosa_emits_nothing
                  w (audio_file a) (min_db a) (method a)) as Hquiet.
    rewrite Hdet in Hloads, Hquiet. cbn [fst] in Hloads, Hquiet.
    rewrite (main_after_detection w a tr l Hex Hdet).
    destruct (output_path a) as [p|].
    + destruct (open_for_write w p) as [[]|e] eqn:Hopen.
      * split; [reflexivity|]. split.
        -- intros p' Hp'. injection Hp' as <-. exact Hopen.
        -- rewrite emitted_app, Hquiet. reflexivity.
      * split; [reflexivity|]. split; [exists p; auto|].
        rewrite app_nil_r. auto.
    + split; [reflexivity|]. split; [discriminate|].
      rewrite emitted_app, Hquiet. reflexivity.
  - unfold main. rewrite Hex. cbn [negb]. auto.
Qed.

(** X23.  An empty [--output] value is no file name: [if args.output:] is
    false for it, so the document goes to standard output and no file is
    opened, whatever opening one would have done. *)
Theorem empty_output_goes_to_stdout {R : Rounding} (w : World) (a : Args) :
  output a = Some ""%string ->
  path_exists w (audio_file a) = true ->
  exists tr l,
    detect_onsets_librosa w (audio_file a) (min_db a) (method a)
    = (tr, Ok (PyList l))
    /\ main w a = (tr ++ [Ev_stdout (document a l)], Finished).
Proof.
  intros Hout Hex.
  destruct (detect_onsets_librosa_returns w (audio_file a) (min_db a) (method a))
    as (tr & l & Hdet).
  exists tr, l. split; [exact Hdet|].
  rewrite (main_after_detection w a tr l Hex Hdet).
  unfold output_path. rewrite Hout. reflexivity.
Qed.

Lemma empty_output_goes_to_stdout_witness :
  exists tr l,
    detect_onsets_librosa steady_world "take.wav" (- (50 # 1)) "combined"
    = (tr, Ok (PyList l))
    /\ main steady_world
         (mkArgs "take.wav" (- (50 # 1)) "combined" (Some ""%string))
       = (tr ++ [Ev_stdout
                   (document
                      (mkArgs "take.wav" (- (50 # 1)) "combined" (Some ""%string))
                      l)],
          Finished).
Proof.
  apply (empty_output_goes_to_stdout steady_world
           (mkArgs "take.wav" (- (50 # 1)) "combined" (Some ""%string))).
  - reflexivity.
  - reflexivity.
Defined.
